(** * parselglossy: type checking, type fixation and node validation

    A shallow embedding of [parselglossy/types.py] and
    [parselglossy/validate.py].

    - [types.py] is pure: it reads its arguments and builds fresh
      dictionaries and lists.  Its values are trees ([jval]), a dictionary
      being the ordered list of its items.
    - [validate.py] writes into the dictionary it is given
      ([input_dict[keyword] = _default]) and returns that same object, so
      there a dictionary is an object in a store ([heap]) and a value holds a
      reference to it ([PDict]). *)

From Stdlib Require Import ZArith Ascii String List Bool Lia.
From stdpp Require Import base option list strings gmap pretty.

Import ListNotations.
Set Warnings "-register-all,-clear-no-such-hyp".
Set Default Proof Using "Type".
Local Open Scope string_scope.
Local Open Scope list_scope.

(** ** Values shared by both files *)

(** A Python scalar.  An [int] is unbounded.  A [float] or a [complex] is
    carried as the text [repr] prints for it (the shortest text that reads
    back as the same number); the model does no floating-point arithmetic. *)
Inductive scalar : Type :=
| SNone
| SBool (b : bool)
| SInt (z : Z)
| SFloat (repr : string)
| SComplex (repr : string)
| SStr (s : string).

(** [type(v).__name__] on a scalar. *)
Definition scalar_type_name (s : scalar) : string :=
  match s with
  | SNone => "NoneType"
  | SBool _ => "bool"
  | SInt _ => "int"
  | SFloat _ => "float"
  | SComplex _ => "complex"
  | SStr _ => "str"
  end.

(** [bool(s)], the truth value of a scalar. *)
Definition scalar_truthy (s : scalar) : bool :=
  match s with
  | SNone => false
  | SBool b => b
  | SInt z => negb (z =? 0)%Z
  | SFloat r => negb (existsb (String.eqb r) ["0.0"; "-0.0"])
  | SComplex r => negb (existsb (String.eqb r) ["0j"; "-0j"; "(-0+0j)"; "(-0-0j)"])
  | SStr s => negb (String.eqb s "")
  end.

(** A JSON-like tree, as [types.py] sees it ([JSONDict] and its leaves). *)
Inductive jval : Type :=
| JScalar (s : scalar)
| JList (items : list jval)
| JDict (items : list (string * jval)).

(** An argument of [str.format]: messages keep their format string and
    arguments apart, so that "the message names x" is a statement about
    the arguments. *)
Inductive fmt_arg : Type :=
| AStr (s : string)
| ANames (l : list string)
| ASet (s : gset string)
| AValue (v : jval).

Record message : Type := Msg { msg_fmt : string; msg_args : list fmt_arg }.

(** Exceptions.  [SyntaxError] stands for every exception an
    [except SyntaxError] clause catches; [OtherException] for a class that is
    none of the listed ones. *)
Inductive exn : Type :=
| ValueError (m : message)
| KeyError (key : string)
| IndexError
| TypeError
| AttributeError
| SyntaxError
| NameError
| InputError (m : message)
| TemplateError (m : message)
| OtherException (cls : string).

Inductive result (A : Type) : Type :=
| Ok (a : A)
| Raise (e : exn).
Arguments Ok {A} a.
Arguments Raise {A} e.

Definition bind {A B : Type} (r : result A) (k : A -> result B) : result B :=
  match r with
  | Ok a => k a
  | Raise e => Raise e
  end.

(** The names a message mentions: its string arguments and the members of
    its list and set arguments. *)
Definition arg_names (a : fmt_arg) (x : string) : Prop :=
  match a with
  | AStr s => s = x
  | ANames l => x ∈ l
  | ASet s => x ∈ s
  | AValue _ => False
  end.

Definition names (m : message) (x : string) : Prop :=
  Exists (fun a => arg_names a x) (msg_args m).

(** ** Python dictionaries

    A [dict] keeps its keys in insertion order: it is the list of its items,
    without repeated keys.  [d[k] = v] replaces the value in place when [k]
    is present and appends the item otherwise. *)
Section Dict.
Context {V : Type}.

Fixpoint dict_get (d : list (string * V)) (k : string) : option V :=
  match d with
  | [] => None
  | (k', v) :: r => if String.eqb k' k then Some v else dict_get r k
  end.

Fixpoint dict_set (d : list (string * V)) (k : string) (v : V)
  : list (string * V) :=
  match d with
  | [] => [(k, v)]
  | (k', v') :: r =>
      if String.eqb k' k then (k', v) :: r else (k', v') :: dict_set r k v
  end.

Definition dict_keys (d : list (string * V)) : list string := map fst d.

(** [d.update(other)] *)
Definition dict_update (d other : list (string * V)) : list (string * V) :=
  fold_left (fun acc kv => dict_set acc (fst kv) (snd kv)) other d.
End Dict.

(** ** The regular expression [^List\[(\w+)\]$]

    Used with [re.search] and [re.match]; both anchor at the start here.
    [\w] is taken on ASCII, and [$] matches at the end of the string or
    before a final newline. *)
Definition is_word_char (c : ascii) : bool :=
  let n := nat_of_ascii c in
  (((48 <=? n) && (n <=? 57)) || ((65 <=? n) && (n <=? 90))
   || ((97 <=? n) && (n <=? 122)) || (n =? 95))%nat.

Fixpoint span_word (s : string) : string * string :=
  match s with
  | String c r =>
      if is_word_char c
      then let '(w, tl) := span_word r in (String c w, tl)
      else (EmptyString, s)
  | EmptyString => (EmptyString, EmptyString)
  end.

Fixpoint strip_prefix (p s : string) : option string :=
  match p, s with
  | EmptyString, _ => Some s
  | String a p', String b s' => if Ascii.eqb a b then strip_prefix p' s' else None
  | String _ _, EmptyString => None
  end.

Definition newline : string := String (ascii_of_nat 10) EmptyString.

(** [re.search(r"^List\[(\w+)\]$", s)]: [Some w] is a match whose group 1 is
    [w], [None] is no match. *)
Definition list_tag_search (s : string) : option string :=
  match strip_prefix "List[" s with
  | Some rest =>
      let '(w, tl) := span_word rest in
      if negb (String.eqb w "")
         && (String.eqb tl "]" || String.eqb tl ("]" +:+ newline))
      then Some w else None
  | None => None
  end.

(** ** types.py *)
Module Types.

(** [type(value).__name__] *)
Definition type_name (v : jval) : string :=
  match v with
  | JScalar s => scalar_type_name s
  | JList _ => "list"
  | JDict _ => "dict"
  end.

Definition allowed_scalar_types : list string :=
  ["str"; "int"; "float"; "complex"; "bool"].

Definition _type_check_scalar (value : jval) (expected_type : string) : bool :=
  String.eqb (type_name value) expected_type.

(** ["List[{}]".format(t) for t in allowed_scalar_types] *)
Definition allowed_list_types : list string :=
  map (fun t => "List[" +:+ t +:+ "]") allowed_scalar_types.

Definition _type_check_list (value : jval) (expected_type : string) : bool :=
  match value with
  | JList items => forallb (fun x => _type_check_scalar x expected_type) items
  | _ => false
  end.

Definition allowed_types : list string :=
  allowed_scalar_types ++ allowed_list_types.

Definition unrecognized (expected_type : fmt_arg) : exn :=
  ValueError (Msg "could not recognize expected_type: {}" [expected_type]).

Definition type_matches (value : jval) (expected_type : string) : result bool :=
  if negb (existsb (String.eqb expected_type) allowed_types)
  then Raise (unrecognized (AStr expected_type))
  else
    match list_tag_search expected_type with
    | Some group1 => Ok (_type_check_list value group1)
    | None => Ok (_type_check_scalar value expected_type)
    end.

(** *** Type fixation *)

(** The constructors [bool], [complex], [float], [int] and [str]. *)
Inductive builtin : Type := Bbool | Bcomplex | Bfloat | Bint | Bstr.

(** [bool(v)], the truth value of [v]. *)
Definition truthy (v : jval) : bool :=
  match v with
  | JScalar s => scalar_truthy s
  | JList items => match items with [] => false | _ => true end
  | JDict items => match items with [] => false | _ => true end
  end.

(** Calling a constructor.  These are Python's, not this package's:
    [None] marks a call the model does not cover (it would need
    floating-point conversion, number parsing or the [repr] of a
    container).  Every call [rec_typenade] can make is covered. *)
Definition call_builtin (c : builtin) (v : jval) : option (result jval) :=
  match c, v with
  | Bbool, _ => Some (Ok (JScalar (SBool (truthy v))))
  | Bstr, JScalar SNone => Some (Ok (JScalar (SStr "None")))
  | Bstr, JScalar (SBool b) =>
      Some (Ok (JScalar (SStr (if b then "True" else "False"))))
  | Bstr, JScalar (SInt z) => Some (Ok (JScalar (SStr (pretty z))))
  | Bstr, JScalar (SFloat r) => Some (Ok (JScalar (SStr r)))
  | Bstr, JScalar (SComplex r) => Some (Ok (JScalar (SStr r)))
  | Bstr, JScalar (SStr s) => Some (Ok v)
  | Bstr, _ => None
  | Bint, JScalar (SBool b) => Some (Ok (JScalar (SInt (if b then 1 else 0))))
  | Bint, JScalar (SInt _) => Some (Ok v)
  | Bint, JScalar (SFloat _) => None
  | Bint, JScalar (SStr _) => None
  | Bint, _ => Some (Raise TypeError)
  | Bfloat, JScalar (SBool b) =>
      Some (Ok (JScalar (SFloat (if b then "1.0" else "0.0"))))
  | Bfloat, JScalar (SFloat _) => Some (Ok v)
  | Bfloat, JScalar (SInt _) => None
  | Bfloat, JScalar (SStr _) => None
  | Bfloat, _ => Some (Raise TypeError)
  | Bcomplex, JScalar (SBool b) =>
      Some (Ok (JScalar (SComplex (if b then "(1+0j)" else "0j"))))
  | Bcomplex, JScalar (SComplex _) => Some (Ok v)
  | Bcomplex, JScalar SNone => Some (Raise TypeError)
  | Bcomplex, JScalar _ => None
  | Bcomplex, _ => Some (Raise TypeError)
  end.

(** [iter(x)]: the items a loop over [x] sees (a [str] yields its
    characters, a [dict] its keys). *)
Definition iterate (x : jval) : result (list jval) :=
  match x with
  | JList items => Ok items
  | JDict items => Ok (map (fun kv => JScalar (SStr (fst kv))) items)
  | JScalar (SStr s) =>
      Ok (map (fun c => JScalar (SStr (String c EmptyString)))
              (list_ascii_of_string s))
  | JScalar _ => Raise TypeError
  end.

(** [list(map(f, items))]: in order, stopping at the first exception. *)
Fixpoint list_map (f : jval -> option (result jval)) (items : list jval)
  : option (result (list jval)) :=
  match items with
  | [] => Some (Ok [])
  | x :: rest =>
      match f x with
      | Some (Ok y) =>
          match list_map f rest with
          | Some (Ok ys) => Some (Ok (y :: ys))
          | other => other
          end
      | Some (Raise e) => Some (Raise e)
      | None => None
      end
  end.

(** The five scalar entries of [type_fixers], in the order of the
    literal, which is the order [items()] yields them in (dictionaries keep
    insertion order in the Python versions the package supports). *)
Definition scalar_fixers : list (string * builtin) :=
  [("bool", Bbool); ("complex", Bcomplex); ("float", Bfloat);
   ("int", Bint); ("str", Bstr)].

(** The frame of the dict comprehension
    [{"List[{:s}]".format(k): lambda x: list(map(v, x)) for k, v in ...}].
    There is one frame for all iterations; each iteration rebinds [k] and
    [v] in it. *)
Record frame : Type := Frame { frame_k : string; frame_v : builtin }.

(** [lambda x: list(map(v, x))].  The lambda does not copy [v]: it refers
    to the comprehension's frame and reads [v] there when it is called. *)
Definition list_lambda (fr : frame) (x : jval) : option (result jval) :=
  match iterate x with
  | Ok items =>
      match list_map (call_builtin (frame_v fr)) items with
      | Some (Ok ys) => Some (Ok (JList ys))
      | Some (Raise e) => Some (Raise e)
      | None => None
      end
  | Raise e => Some (Raise e)
  end.

(** One iteration: bind [k], [v] in the frame, then store the lambda under
    the key.  The state is the frame and the items stored so far, each a
    function of the frame it will be called in. *)
Definition comprehension_step
  (st : option frame * list (string * (frame -> jval -> option (result jval))))
  (item : string * builtin)
  : option frame * list (string * (frame -> jval -> option (result jval))) :=
  (Some (Frame (fst item) (snd item)),
   dict_set (snd st) ("List[" +:+ fst item +:+ "]") list_lambda).

(** The comprehension, run over [type_fixers.items()].  When it has
    finished, the frame holds the last [k] and [v], and that is the frame
    every stored lambda is called in. *)
Definition tmp : list (string * (jval -> option (result jval))) :=
  match fold_left comprehension_step scalar_fixers (None, []) with
  | (Some final, stored) => map (fun kf => (fst kf, snd kf final)) stored
  | (None, _) => []
  end.

(** [type_fixers] after [type_fixers.update(tmp)]. *)
Definition type_fixers : list (string * (jval -> option (result jval))) :=
  dict_update
    (map (fun kc => (fst kc, call_builtin (snd kc))) scalar_fixers) tmp.

(** *** Type checking of a merged input *)

(** [Error(address, message)] *)
Record Error : Type :=
  MkError { error_address : list string; error_message : message }.

(** [d[k]] for a value [d] that need not be a dictionary. *)
Definition subscript (d : jval) (k : string) : result jval :=
  match d with
  | JDict items =>
      match dict_get items k with
      | Some v => Ok v
      | None => Raise (KeyError k)
      end
  | _ => Raise TypeError
  end.

(** [type_matches(value, declared)] where [declared] was read from the
    [types] tree and need not be a string: a value that is not a string
    equals none of [allowed_types]. *)
Definition type_matches_declared (value declared : jval) : result bool :=
  match declared with
  | JScalar (SStr t) => type_matches value t
  | _ => Raise (unrecognized (AValue declared))
  end.

Definition no_value (address : list string) (k : string) : Error :=
  MkError (address ++ [k])
          (Msg "Keyword '{0}' is required but has no value" [AStr k]).

Definition mismatch (address : list string) (k : string) (v declared : jval)
  : Error :=
  MkError (address ++ [k])
          (Msg "Actual ({0}) and declared ({1}) types do not match"
               [AStr (type_name v);
                match declared with
                | JScalar (SStr t) => AStr t
                | _ => AValue declared
                end]).

(** The branch of [rec_typenade] for a keyword [k] whose value [v] is not
    a dictionary: the new value of [outgoing[k]] and the errors to append. *)
Definition check_keyword (types : jval) (fixate : bool)
  (address : list string) (k : string) (v : jval)
  : option (result (jval * list Error)) :=
  match subscript types k with
  | Raise e => Some (Raise e)
  | Ok declared =>
      match v with
      | JScalar SNone => Some (Ok (JScalar SNone, [no_value address k]))
      | _ =>
          match type_matches_declared v declared with
          | Raise e => Some (Raise e)
          | Ok true =>
              if fixate then
                match declared with
                | JScalar (SStr t) =>
                    match dict_get type_fixers t with
                    | Some fixer =>
                        match fixer v with
                        | Some (Ok v') => Some (Ok (v', []))
                        | Some (Raise e) => Some (Raise e)
                        | None => None
                        end
                    | None => Some (Raise (KeyError t))
                    end
                | _ => Some (Raise TypeError)
                end
              else Some (Ok (v, []))
          | Ok false =>
              Some (Ok (JScalar SNone, [mismatch address k v declared]))
          end
      end
  end.

Fixpoint rec_typenade (incoming types : jval) (fixate : bool)
  (address : list string) {struct incoming}
  : option (result (jval * list Error)) :=
  match incoming with
  | JDict items =>
      (fix loop (items : list (string * jval))
           (outgoing : list (string * jval)) (errors : list Error)
         : option (result (jval * list Error)) :=
         match items with
         | [] => Some (Ok (JDict outgoing, errors))
         | (k, v) :: rest =>
             match v with
             | JDict _ =>
                 match subscript types k with
                 | Raise e => Some (Raise e)
                 | Ok types_k =>
                     match rec_typenade v types_k fixate (address ++ [k]) with
                     | Some (Ok (out, errs)) =>
                         loop rest (dict_set outgoing k out) (errors ++ errs)
                     | other => other
                     end
                 end
             | _ =>
                 match check_keyword types fixate address k v with
                 | Some (Ok (out, errs)) =>
                     loop rest (dict_set outgoing k out) (errors ++ errs)
                 | other => other
                 end
             end
         end) items [] []
  | _ => Some (Raise AttributeError)
  end.

End Types.

(** ** validate.py *)
Module Validate.

(** The identity of a dictionary object.  Any countable set of names
    would do; lists of strings let a tree-shaped input call the section
    stored under key [k] of the object [p] by the name [p ++ [k]]. *)
Definition loc : Type := list string.

(** A value: dictionaries are held by reference.  Lists are never
    written to by this file and are kept by value. *)
Inductive pyval : Type :=
| PScalar (s : scalar)
| PList (items : list pyval)
| PDict (a : loc).

(** The store: the contents of each dictionary object.  An object the
    store does not list is empty. *)
Abbreviation heap := (gmap loc (list (string * pyval))).

Definition deref (h : heap) (a : loc) : list (string * pyval) :=
  default [] (h !! a).

(** [d[k] = v] on the object [a]. *)
Definition store (h : heap) (a : loc) (k : string) (v : pyval) : heap :=
  <[a := dict_set (deref h a) k v]> h.

(** [type(value).__name__] *)
Definition type_name (v : pyval) : string :=
  match v with
  | PScalar s => scalar_type_name s
  | PList _ => "list"
  | PDict _ => "dict"
  end.

(** *** type_matches *)

Definition allowed_basic_types : list string :=
  ["str"; "int"; "float"; "complex"; "bool"].

Definition allowed_list_types : list string :=
  map (fun t => "List[" +:+ t +:+ "]") allowed_basic_types.

Definition allowed_types : list string :=
  allowed_basic_types ++ allowed_list_types.

Definition type_matches (value : pyval) (expected_type : string) : result bool :=
  if negb (existsb (String.eqb expected_type) allowed_types)
  then Raise (ValueError (Msg "could not recognize expected_type: {}"
                              [AStr expected_type]))
  else
    let expected_type_is_list :=
      match list_tag_search expected_type with Some _ => true | None => false end in
    if expected_type_is_list then
      match value with
      | PList items =>
          match list_tag_search expected_type with
          | Some list_element_type =>
              Ok (forallb (fun element =>
                             String.eqb (type_name element) list_element_type)
                          items)
          | None => Raise AttributeError
          end
      | _ => Ok false
      end
    else Ok (String.eqb (type_name value) expected_type).

(** *** The template

    The template is read, never written.  It is kept as a tree: a node
    has an optional ['section'] name, an optional list under ['keywords']
    and an optional list under ['sections']; a keyword has optional
    entries ['keyword'], ['type'], ['documentation'], ['default'] and
    ['predicates'].  [None] is a missing key. *)
Record keyword_spec : Type := Keyword {
  kw_keyword : option string;
  kw_type : option string;
  kw_documentation : option string;
  kw_default : option pyval;
  kw_predicates : option (list string)
}.

Inductive template : Type :=
| Template (section : option string)
           (keywords : option (list keyword_spec))
           (sections : option (list template)).

Definition t_section (t : template) : option string :=
  match t with Template s _ _ => s end.
Definition t_keywords (t : template) : option (list keyword_spec) :=
  match t with Template _ k _ => k end.
Definition t_sections (t : template) : option (list template) :=
  match t with Template _ _ s => s end.

(** [[x[key] for x in xs]]: a missing key raises [KeyError]. *)
Fixpoint field_of_each {X : Type} (key : string) (field : X -> option string)
  (xs : list X) : result (list string) :=
  match xs with
  | [] => Ok []
  | x :: rest =>
      match field x with
      | None => Raise (KeyError key)
      | Some n => bind (field_of_each key field rest) (fun ns => Ok (n :: ns))
      end
  end.

(** [list(filter(lambda x: x[key] == name, xs))[0]] *)
Fixpoint first_named {X : Type} (key : string) (field : X -> option string)
  (name : string) (xs : list X) : result X :=
  match xs with
  | [] => Raise IndexError
  | x :: rest =>
      match field x with
      | None => Raise (KeyError key)
      | Some n =>
          match first_named key field name rest with
          | Raise (KeyError k) => Raise (KeyError k)
          | other => if String.eqb n name then Ok x else other
          end
      end
  end.

Definition is_dict (v : pyval) : bool :=
  match v with PDict _ => true | _ => false end.

(** A [str] is a sequence of code points; a [string] holds the bytes of
    its UTF-8 encoding.  [utf8_decode] gives the code points back, and
    [None] for bytes that encode no text. *)
Definition is_continuation (b : N) : bool := ((128 <=? b) && (b <? 192))%N.

Fixpoint utf8_decode (bytes : list N) : option (list N) :=
  match bytes with
  | [] => Some []
  | b1 :: r1 =>
      if (b1 <? 128)%N then option_map (cons b1) (utf8_decode r1)
      else if ((194 <=? b1) && (b1 <? 224))%N then
        match r1 with
        | b2 :: r2 =>
            if is_continuation b2
            then option_map (cons ((b1 - 192) * 64 + (b2 - 128))%N)
                            (utf8_decode r2)
            else None
        | _ => None
        end
      else if ((224 <=? b1) && (b1 <? 240))%N then
        match r1 with
        | b2 :: b3 :: r3 =>
            let c := ((b1 - 224) * 4096 + (b2 - 128) * 64 + (b3 - 128))%N in
            if is_continuation b2 && is_continuation b3 && (2048 <=? c)%N
            then option_map (cons c) (utf8_decode r3)
            else None
        | _ => None
        end
      else if ((240 <=? b1) && (b1 <? 245))%N then
        match r1 with
        | b2 :: b3 :: b4 :: r4 =>
            let c := ((b1 - 240) * 262144 + (b2 - 128) * 4096
                      + (b3 - 128) * 64 + (b4 - 128))%N in
            if is_continuation b2 && is_continuation b3 && is_continuation b4
               && (65536 <=? c)%N && (c <? 1114112)%N
            then option_map (cons c) (utf8_decode r4)
            else None
        | _ => None
        end
      else None
  end.

Definition code_points (s : string) : option (list N) :=
  utf8_decode (map N_of_ascii (list_ascii_of_string s)).

(** The code points [str.strip()] removes: those for which [str.isspace]
    holds.  Below 128 these are the tab to the carriage return, the four
    separators and the space; above, U+0085, U+00A0, U+1680, U+2000 to
    U+200A, U+2028, U+2029, U+202F, U+205F and U+3000. *)
Definition is_space (c : N) : bool :=
  (((9 <=? c) && (c <=? 13)) || ((28 <=? c) && (c <=? 32))
   || (c =? 133) || (c =? 160) || (c =? 5760)
   || ((8192 <=? c) && (c <=? 8202))
   || (c =? 8232) || (c =? 8233) || (c =? 8239) || (c =? 8287)
   || (c =? 12288))%N.

(** [s.strip() == '']: every code point of [s] is white space. *)
Definition strip_is_empty (s : string) : bool :=
  match code_points s with
  | Some cs => forallb is_space cs
  | None => false
  end.

(** What [[x for x in input_dict if type(input_dict[x]).__name__ == 'dict']]
    followed by [input_dict.keys()] raises when [input_dict] is not a
    dictionary. *)
Definition list_index (items : list pyval) (i : Z) : option pyval :=
  let n := Z.of_nat (length items) in
  if ((0 <=? i) && (i <? n))%Z then nth_error items (Z.to_nat i)
  else if ((- n <=? i) && (i <? 0))%Z then nth_error items (Z.to_nat (n + i))
  else None.

Fixpoint subscript_each (items xs : list pyval) : exn :=
  match xs with
  | [] => AttributeError
  | x :: rest =>
      match x with
      | PScalar (SInt i) =>
          match list_index items i with
          | Some _ => subscript_each items rest
          | None => IndexError
          end
      | PScalar (SBool b) =>
          match list_index items (if b then 1 else 0) with
          | Some _ => subscript_each items rest
          | None => IndexError
          end
      | _ => TypeError
      end
  end.

Definition not_a_dict (v : pyval) : exn :=
  match v with
  | PList items => subscript_each items items
  | PScalar (SStr s) => if String.eqb s "" then AttributeError else TypeError
  | _ => TypeError
  end.

(** [input_sections] and [input_keywords] of a dictionary. *)
Definition sections_of (d : list (string * pyval)) : list string :=
  map fst (filter (fun kv => is_dict (snd kv)) d).

Definition keywords_of (d : list (string * pyval)) : list string :=
  filter (fun x => negb (existsb (String.eqb x) (sections_of d))) (dict_keys d).

Definition has_no_doc (x : keyword_spec) : bool :=
  match kw_documentation x with
  | None => true
  | Some doc => strip_is_empty doc
  end.

Definition has_no_default (x : keyword_spec) : bool :=
  match kw_default x with None => true | Some _ => false end.

Definition no_documentation (keywords_no_doc : list string) : exn :=
  TemplateError (Msg "keyword(s) without any documentation: {}"
                     [ANames keywords_no_doc]).
Definition unexpected_keywords (difference : gset string) : exn :=
  InputError (Msg "found unexpected keyword(s): {}" [ASet difference]).
Definition unexpected_sections (difference : gset string) : exn :=
  InputError (Msg "found unexpected section(s): {}" [ASet difference]).
Definition must_be_set (difference : gset string) : exn :=
  InputError (Msg "the following keyword(s) must be set: {}" [ASet difference]).
Definition incorrect_type (keyword _type : string) : exn :=
  InputError (Msg "incorrect type for keyword: {0}, expected '{1}' type"
                  [AStr keyword; AStr _type]).

(** [template_dict['keywords']] *)
Definition keywords_entry (t : template) : result (list keyword_spec) :=
  match t_keywords t with
  | Some l => Ok l
  | None => Raise (KeyError "keywords")
  end.

(** The loop "for each keyword verify the type of the value". *)
Fixpoint verify_types (t : template) (d : list (string * pyval))
  (input_keywords : list string) : result unit :=
  match input_keywords with
  | [] => Ok tt
  | keyword :: rest =>
      bind (keywords_entry t) (fun kws =>
      bind (first_named "keyword" kw_keyword keyword kws) (fun template_keyword =>
      match kw_type template_keyword with
      | None => Raise (KeyError "type")
      | Some _type =>
          match dict_get d keyword with
          | None => Raise (KeyError keyword)
          | Some value =>
              bind (type_matches value _type) (fun b =>
              if b then verify_types t d rest
              else Raise (incorrect_type keyword _type))
          end
      end))
  end.

(** The loop "fill missing input keywords with template defaults". *)
Fixpoint fill_defaults (t : template) (h : heap) (a : loc)
  (missing : list string) : heap * result unit :=
  match missing with
  | [] => (h, Ok tt)
  | keyword :: rest =>
      match bind (keywords_entry t)
                 (first_named "keyword" kw_keyword keyword) with
      | Raise e => (h, Raise e)
      | Ok template_keyword =>
          match kw_default template_keyword with
          | None => (h, Raise (KeyError "default"))
          | Some _default => fill_defaults t (store h a keyword _default) a rest
          end
      end
  end.

(** The loop "descend into the sections".  [recurse] pairs each entry of
    [template_dict['sections']] with the recursive call on it. *)
Fixpoint descend
  (recurse : list (option string * (heap -> pyval -> heap * result pyval)))
  (h : heap) (a : loc) (template_sections : list string) : heap * result unit :=
  match template_sections with
  | [] => (h, Ok tt)
  | section :: rest =>
      match dict_get (deref h a) section with
      | None => (h, Raise (KeyError section))
      | Some input_section =>
          match first_named "section" fst section recurse with
          | Raise e => (h, Raise e)
          | Ok template_section =>
              match snd template_section h input_section with
              | (h', Raise e) => (h', Raise e)
              | (h', Ok validated) =>
                  descend recurse (store h' a section validated) a rest
              end
          end
      end
  end.

(** The body of [validate_node], the recursive calls taken from
    [recurse]. *)
Definition validate_body
  (recurse : list (option string * (heap -> pyval -> heap * result pyval)))
  (h : heap) (input_dict : pyval) (template_dict : template)
  : heap * result pyval :=
  match input_dict with
  | PDict a =>
      let d := deref h a in
      let input_sections := sections_of d in
      let input_keywords := keywords_of d in
      match
        (match t_sections template_dict with
         | Some l => field_of_each "section" t_section l
         | None => Ok []
         end)
      with
      | Raise e => (h, Raise e)
      | Ok template_sections =>
      match
        (match t_keywords template_dict with
         | Some l => field_of_each "keyword" kw_keyword l
         | None => Ok []
         end)
      with
      | Raise e => (h, Raise e)
      | Ok template_keywords =>
      match keywords_entry template_dict with
      | Raise e => (h, Raise e)
      | Ok kws =>
      match field_of_each "keyword" kw_keyword (filter has_no_doc kws) with
      | Raise e => (h, Raise e)
      | Ok keywords_no_doc =>
      if (0 <? length keywords_no_doc)%nat
      then (h, Raise (no_documentation keywords_no_doc))
      else
      let difference : gset string :=
        list_to_set input_keywords ∖ list_to_set template_keywords in
      if bool_decide (difference ≠ ∅)
      then (h, Raise (unexpected_keywords difference))
      else
      let difference : gset string :=
        list_to_set input_sections ∖ list_to_set template_sections in
      if bool_decide (difference ≠ ∅)
      then (h, Raise (unexpected_sections difference))
      else
      match
        bind (keywords_entry template_dict) (fun kws =>
              field_of_each "keyword" kw_keyword (filter has_no_default kws))
      with
      | Raise e => (h, Raise e)
      | Ok keywords_no_default =>
      let difference : gset string :=
        list_to_set keywords_no_default ∖ list_to_set input_keywords in
      if bool_decide (difference ≠ ∅)
      then (h, Raise (must_be_set difference))
      else
      match verify_types template_dict d input_keywords with
      | Raise e => (h, Raise e)
      | Ok _ =>
      match
        fill_defaults template_dict h a
          (elements (list_to_set template_keywords ∖ list_to_set input_keywords
                     : gset string))
      with
      | (h1, Raise e) => (h1, Raise e)
      | (h1, Ok _) =>
      match descend recurse h1 a template_sections with
      | (h2, Raise e) => (h2, Raise e)
      | (h2, Ok _) => (h2, Ok input_dict)
      end end end end end end end end
  | _ => (h, Raise (not_a_dict input_dict))
  end.

Fixpoint validate_node (h : heap) (input_dict : pyval) (template_dict : template)
  {struct template_dict} : heap * result pyval :=
  validate_body
    (match template_dict with
     | Template _ _ (Some l) =>
         map (fun x => (t_section x, fun h' v => validate_node h' v x)) l
     | Template _ _ None => []
     end)
    h input_dict template_dict.

(** *** check_predicates_node *)

(** [bool(v)] *)
Definition truthy (h : heap) (v : pyval) : bool :=
  match v with
  | PScalar s => scalar_truthy s
  | PList items => match items with [] => false | _ => true end
  | PDict a => match deref h a with [] => false | _ => true end
  end.

(** The local variables [eval(predicate)] can see; [l_r] is the result of
    the previous [eval] of this call, if any. *)
Record locals : Type := Locals {
  l_input_dict : pyval;
  l_input_dict_node : pyval;
  l_template_dict_node : template;
  l_input_sections : list string;
  l_input_keywords : list string;
  l_template_sections : list string;
  l_keyword : string;
  l_template_keyword : keyword_spec;
  l_value : pyval;
  l_predicate : string;
  l_r : option pyval
}.

Inductive eval_outcome : Type :=
| Evaluated (r : pyval)
| Raised (e : exn).

Definition syntax_error_in (predicate keyword : string) : exn :=
  TemplateError (Msg "syntax error in predicate {} in keyword {}"
                     [AStr predicate; AStr keyword]).
Definition predicate_failed (predicate keyword : string) : exn :=
  InputError (Msg "predicate {} failed in keyword {}"
                  [AStr predicate; AStr keyword]).

Section Predicates.
(** Python's [eval]: it is given the store, the local variables and the
    text, and may change the store. *)
Variable py_eval : heap -> locals -> string -> heap * eval_outcome.

(** [for predicate in template_keyword['predicates']: ...];
    [frame predicate r] is the local variables at the [eval]. *)
Fixpoint check_each (frame : string -> option pyval -> locals)
  (keyword : string) (h : heap) (r : option pyval) (predicates : list string)
  : heap * result (option pyval) :=
  match predicates with
  | [] => (h, Ok r)
  | predicate :: rest =>
      match py_eval h (frame predicate r) predicate with
      | (h', Raised SyntaxError) => (h', Raise (syntax_error_in predicate keyword))
      | (h', Raised e) => (h', Raise e)
      | (h', Evaluated r') =>
          if negb (truthy h' r')
          then (h', Raise (predicate_failed predicate keyword))
          else check_each frame keyword h' (Some r') rest
      end
  end.

(** [for keyword in input_keywords: ...] *)
Fixpoint check_keywords (input_dict : pyval) (a : loc)
  (template_dict_node : template)
  (input_sections input_keywords template_sections : list string)
  (h : heap) (r : option pyval) (todo : list string)
  : heap * result (option pyval) :=
  match todo with
  | [] => (h, Ok r)
  | keyword :: rest =>
      match bind (keywords_entry template_dict_node)
                 (first_named "keyword" kw_keyword keyword) with
      | Raise e => (h, Raise e)
      | Ok template_keyword =>
          match dict_get (deref h a) keyword with
          | None => (h, Raise (KeyError keyword))
          | Some value =>
              match kw_predicates template_keyword with
              | None =>
                  check_keywords input_dict a template_dict_node input_sections
                    input_keywords template_sections h r rest
              | Some predicates =>
                  match
                    check_each
                      (fun predicate r =>
                         Locals input_dict (PDict a) template_dict_node
                                input_sections input_keywords template_sections
                                keyword template_keyword value predicate r)
                      keyword h r predicates
                  with
                  | (h', Raise e) => (h', Raise e)
                  | (h', Ok r') =>
                      check_keywords input_dict a template_dict_node
                        input_sections input_keywords template_sections h' r' rest
                  end
              end
          end
      end
  end.

(** The loop over [template_sections]. *)
Fixpoint descend_predicates
  (recurse : list (option string * (heap -> pyval -> heap * result unit)))
  (h : heap) (a : loc) (template_sections : list string) : heap * result unit :=
  match template_sections with
  | [] => (h, Ok tt)
  | section :: rest =>
      match dict_get (deref h a) section with
      | None => (h, Raise (KeyError section))
      | Some input_section =>
          match first_named "section" fst section recurse with
          | Raise e => (h, Raise e)
          | Ok template_section =>
              match snd template_section h input_section with
              | (h', Raise e) => (h', Raise e)
              | (h', Ok _) => descend_predicates recurse h' a rest
              end
          end
      end
  end.

Definition check_predicates_body
  (recurse : list (option string * (heap -> pyval -> heap * result unit)))
  (h : heap) (input_dict input_dict_node : pyval) (template_dict_node : template)
  : heap * result unit :=
  match input_dict_node with
  | PDict a =>
      let d := deref h a in
      let input_sections := sections_of d in
      let input_keywords := keywords_of d in
      match
        (match t_sections template_dict_node with
         | Some l => field_of_each "section" t_section l
         | None => Ok []
         end)
      with
      | Raise e => (h, Raise e)
      | Ok template_sections =>
          match
            check_keywords input_dict a template_dict_node input_sections
              input_keywords template_sections h None input_keywords
          with
          | (h1, Raise e) => (h1, Raise e)
          | (h1, Ok _) => descend_predicates recurse h1 a template_sections
          end
      end
  | _ => (h, Raise (not_a_dict input_dict_node))
  end.

Fixpoint check_predicates_node (h : heap) (input_dict input_dict_node : pyval)
  (template_dict_node : template) {struct template_dict_node}
  : heap * result unit :=
  check_predicates_body
    (match template_dict_node with
     | Template _ _ (Some l) =>
         map (fun x => (t_section x,
                        fun h' v => check_predicates_node h' input_dict v x)) l
     | Template _ _ None => []
     end)
    h input_dict input_dict_node template_dict_node.
End Predicates.

End Validate.

(** * Vocabulary of the statements *)

Import Validate.

(** The ten tags: the five scalar tags and their [List] variants. *)
Definition ten_tags : list string :=
  ["bool"; "str"; "int"; "float"; "complex";
   "List[bool]"; "List[str]"; "List[int]"; "List[float]"; "List[complex]"].

(** A Python list of ints, and the list of their decimal texts. *)
Definition ints (l : list Z) : jval := JList (map (fun z => JScalar (SInt z)) l).

Definition strs (l : list Z) : jval :=
  JList (map (fun z => JScalar (SStr (pretty z))) l).

(** The recursive calls of [validate_node] on the sections of [t], as its
    body takes them. *)
Definition recurse_of (t : template)
  : list (option string * (heap -> pyval -> heap * result pyval)) :=
  match t_sections t with
  | Some l => map (fun x => (t_section x, fun h' v => validate_node h' v x)) l
  | None => []
  end.

(** The template keywords without a default, by name. *)
Definition required_keywords (kws : list keyword_spec) : list string :=
  omap kw_keyword (filter has_no_default kws).

(** The names under ['sections'], or the exception raised listing them. *)
Definition section_names (t : template) : result (list string) :=
  match t_sections t with
  | Some l => field_of_each "section" t_section l
  | None => Ok []
  end.

(** [h'] has every key that [h] has, in every dictionary. *)
Definition keeps_keys (h h' : heap) : Prop :=
  forall b k, k ∈ dict_keys (deref h b) -> k ∈ dict_keys (deref h' b).

(** None of the recursive calls removes a key. *)
Definition calls_keep_keys
  (recurse : list (option string * (heap -> pyval -> heap * result pyval)))
  : Prop :=
  Forall (fun nf => forall h v h' r, snd nf h v = (h', r) -> keeps_keys h h')
         recurse.

(** The template declares a keyword, or a section, of this name. *)
Definition declares_keyword (t : template) (x : string) : Prop :=
  exists kws kw, t_keywords t = Some kws /\ kw ∈ kws /\ kw_keyword kw = Some x.

Definition declares_section (t : template) (x : string) : Prop :=
  exists ss sub, t_sections t = Some ss /\ sub ∈ ss /\ t_section sub = Some x.

(** C2 as the claim states it: after a successful call the input dictionary
    holds what it held before, and the result is not that object. *)
Definition returns_fresh_tree (h : heap) (a : loc) (t : template) : Prop :=
  forall h' r,
    validate_node h (PDict a) t = (h', Ok r) ->
    deref h' a = deref h a /\ r <> PDict a.

(** Template [{'keywords': [{'keyword': 'n', 'type': 'int',
    'documentation': 'A number.', 'default': 0}]}]. *)
Definition number_keyword : keyword_spec :=
  Keyword (Some "n") (Some "int") (Some "A number.") (Some (PScalar (SInt 0))) None.

Definition number_template : template := Template None (Some [number_keyword]) None.







(** Input [{'bogus': 1}]. *)
Definition bogus_input : heap := {[ [] := [("bogus", PScalar (SInt 1))] ]}.





(** The loop of [rec_typenade], with its two accumulators. *)
Fixpoint typenade_loop (types : jval) (fixate : bool) (address : list string)
  (items : list (string * jval)) (outgoing : list (string * jval))
  (errors : list Types.Error) : option (result (jval * list Types.Error)) :=
  match items with
  | [] => Some (Ok (JDict outgoing, errors))
  | (k, v) :: rest =>
      match v with
      | JDict _ =>
          match Types.subscript types k with
          | Raise e => Some (Raise e)
          | Ok types_k =>
              match Types.rec_typenade v types_k fixate (address ++ [k]) with
              | Some (Ok (out, errs)) =>
                  typenade_loop types fixate address rest
                    (dict_set outgoing k out) (errors ++ errs)
              | other => other
              end
          end
      | _ =>
          match Types.check_keyword types fixate address k v with
          | Some (Ok (out, errs)) =>
              typenade_loop types fixate address rest
                (dict_set outgoing k out) (errors ++ errs)
          | other => other
          end
      end
  end.

(** C6 as the claim states it, for [validate_node]: a keyword of the input
    whose value does not match the declared type yields an error that names
    the type of the value and the declared type. *)
Definition mismatch_names_both_types (h : heap) (a : loc) (t : template) : Prop :=
  forall k v kws kw ty,
    dict_get (deref h a) k = Some v ->
    t_keywords t = Some kws ->
    first_named "keyword" kw_keyword k kws = Ok kw ->
    kw_type kw = Some ty ->
    Validate.type_matches v ty = Ok false ->
    exists m,
      snd (validate_node h (PDict a) t) = Raise (InputError m)
      /\ names m (Validate.type_name v) /\ names m ty.

(** Input [{'n': '5'}]. *)
Definition five_input : heap := {[ [] := [("n", PScalar (SStr "5"))] ]}.

(** The recursive calls of [check_predicates_node] on the sections of
    [t]. *)
Definition recurse_predicates_of
  (py_eval : heap -> locals -> string -> heap * eval_outcome)
  (input_dict : pyval) (t : template)
  : list (option string * (heap -> pyval -> heap * result unit)) :=
  match t_sections t with
  | Some l =>
      map (fun x => (t_section x,
                     fun h' v => check_predicates_node py_eval h' input_dict v x)) l
  | None => []
  end.

(** An evaluator for three texts, to run the theorem: [value > 0] on an
    int, a text that does not parse, and a name that is not bound. *)
Definition three_texts_eval (h : heap) (env : locals) (predicate : string)
  : heap * eval_outcome :=
  if String.eqb predicate "value > 0" then
    match l_value env with
    | PScalar (SInt z) => (h, Evaluated (PScalar (SBool (0 <? z)%Z)))
    | _ => (h, Raised TypeError)
    end
  else if String.eqb predicate "value >" then (h, Raised SyntaxError)
  else (h, Raised NameError).

(** Template keyword [n] with the predicate [value > 0]; merged input
    [{'n': -1}]. *)
Definition positive_keyword : keyword_spec :=
  Keyword (Some "n") (Some "int") (Some "A number.") (Some (PScalar (SInt 0)))
          (Some ["value > 0"]).

Definition positive_template : template :=
  Template None (Some [positive_keyword]) None.

Definition minus_one_input : heap := {[ [] := [("n", PScalar (SInt (-1)))] ]}.

(** C4 as the claim states it: whenever the call succeeds, the same call on
    its result succeeds and changes nothing. *)
Definition idempotent_at (h : heap) (a : loc) (t : template) : Prop :=
  forall h' r,
    validate_node h (PDict a) t = (h', Ok r) ->
    validate_node h' r t = (h', Ok r).

(** Template [{'keywords': [{'keyword': 'threshold', 'type': 'float',
    'documentation': 'Convergence threshold.', 'default': 1}]}]: the default
    is an int where a float is declared. *)
Definition threshold_template : template :=
  Template None
    (Some [Keyword (Some "threshold") (Some "float")
                   (Some "Convergence threshold.") (Some (PScalar (SInt 1))) None])
    None.

(** Every default of the template matches the type declared with it. *)
Definition default_matches (kw : keyword_spec) : bool :=
  match kw_default kw with
  | None => true
  | Some d =>
      match kw_type kw with
      | Some ty =>
          match Validate.type_matches d ty with
          | Ok b => b
          | Raise _ => false
          end
      | None => false
      end
  end.

(** The same for every keyword of the template, at every depth. *)
Fixpoint defaults_match (t : template) : bool :=
  match t with
  | Template _ kws ss =>
      match kws with Some l => forallb default_matches l | None => true end
      && match ss with Some l => forallb defaults_match l | None => true end
  end.

(** The input is a tree of dictionaries: no dictionary repeats a key, and a
    dictionary stored under the key [k] of the object [p] is the object
    [p ++ [k]], so that no object is reached along two paths. *)
Definition well_formed (h : heap) : Prop :=
  (forall p, NoDup (dict_keys (deref h p)))
  /\ (forall p k q, dict_get (deref h p) k = Some (PDict q) -> q = p ++ [k]).

(** The node [a] passes every check of the template node [t], has nothing
    left to fill in, and so do the sections below it. *)
Inductive settled (h : heap) : loc -> template -> Prop :=
| settled_node (a : loc) (t : template) (kws : list keyword_spec)
    (tks tss : list string) :
    t_keywords t = Some kws ->
    field_of_each "keyword" kw_keyword kws = Ok tks ->
    section_names t = Ok tss ->
    filter has_no_doc kws = [] ->
    list_to_set (keywords_of (deref h a)) ∖ list_to_set tks =@{gset string} ∅ ->
    list_to_set (sections_of (deref h a)) ∖ list_to_set tss =@{gset string} ∅ ->
    list_to_set (required_keywords kws)
      ∖ list_to_set (keywords_of (deref h a)) =@{gset string} ∅ ->
    verify_types t (deref h a) (keywords_of (deref h a)) = Ok tt ->
    list_to_set tks ∖ list_to_set (keywords_of (deref h a)) =@{gset string} ∅ ->
    (forall s, s ∈ tss ->
       exists l x,
         t_sections t = Some l
         /\ first_named "section" t_section s l = Ok x
         /\ dict_get (deref h a) s = Some (PDict (a ++ [s]))
         /\ settled h (a ++ [s]) x) ->
    settled h a t.

(** The keyword [k] of the dictionary [d] passes the type check. *)
Definition keyword_checks (t : template) (d : list (string * pyval)) (k : string)
  : Prop :=
  exists kws kw ty v,
    t_keywords t = Some kws
    /\ first_named "keyword" kw_keyword k kws = Ok kw
    /\ kw_type kw = Some ty
    /\ dict_get d k = Some v
    /\ Validate.type_matches v ty = Ok true.

(** On a well-formed store, a successful call on [t] leaves the node
    settled and the store well formed, and writes only at and below the
    node. *)
Definition settles (t : template) : Prop :=
  forall h a h' r,
    well_formed h ->
    validate_node h (PDict a) t = (h', Ok r) ->
    settled h' a t
    /\ well_formed h'
    /\ (forall q, ~ a `prefix_of` q -> deref h' q = deref h q).

(** Template with a keyword [n] at the root and in the section [scf]; input
    [{'scf': {}}]. *)
Definition scf_template : template :=
  Template None (Some [number_keyword])
    (Some [Template (Some "scf") (Some [number_keyword]) None]).

(** The store before the call, and after it. *)
Definition scf_input : heap :=
  {[ [] := [("scf", PDict ["scf"])]; ["scf"] := [] ]}.

Definition scf_merged : heap :=
  {[ [] := [("scf", PDict ["scf"]); ("n", PScalar (SInt 0))];
     ["scf"] := [("n", PScalar (SInt 0))] ]}.

(** ** Vocabulary of the further properties *)

(** A value of [validate.py] as [types.py] sees it: the contents of a
    dictionary play no part in type checking, only that it is one. *)
Fixpoint erase (v : pyval) : jval :=
  match v with
  | PScalar s => JScalar s
  | PList items => JList (map erase items)
  | PDict _ => JDict []
  end.


(** [incoming[k] is None] *)
Definition is_none (v : jval) : bool :=
  match v with JScalar SNone => true | _ => false end.

(** The keyword [k] with the value [v] has a declared type in [types], is
    not [None] and matches that type. *)
Definition leaf_conforms (types : jval) (k : string) (v : jval) : bool :=
  match Types.subscript types k with
  | Ok (JScalar (SStr t)) =>
      negb (is_none v)
      && match Types.type_matches v t with Ok b => b | Raise _ => false end
  | _ => false
  end.

(** Every keyword of the tree [incoming] conforms to the tree [types], at
    every depth. *)
Fixpoint conforms (incoming types : jval) {struct incoming} : bool :=
  match incoming with
  | JDict items =>
      forallb (fun kv =>
                 match snd kv with
                 | JDict _ =>
                     match Types.subscript types (fst kv) with
                     | Ok types_k => conforms (snd kv) types_k
                     | Raise _ => false
                     end
                 | v => leaf_conforms types (fst kv) v
                 end) items
  | _ => false
  end.

(** No dictionary of the tree repeats a key. *)
Fixpoint well_keyed (v : jval) : bool :=
  match v with
  | JDict items =>
      bool_decide (NoDup (dict_keys items))
      && forallb (fun kv => well_keyed (snd kv)) items
  | _ => true
  end.

(** [str(x)] where the model covers it, [x] otherwise. *)
Definition str_of (x : jval) : jval :=
  match Types.call_builtin Types.Bstr x with
  | Some (Ok y) => y
  | _ => x
  end.

(** The tree with every list among its keyword values replaced by the list
    of the [str] of its elements. *)
Fixpoint stringify (v : jval) : jval :=
  match v with
  | JDict items => JDict (map (fun kv => (fst kv, stringify (snd kv))) items)
  | JList items => JList (map str_of items)
  | JScalar s => JScalar s
  end.

(** Two trees have the same keys in the same order at every depth, with
    dictionaries at the same places. *)
Fixpoint same_shape (a b : jval) {struct a} : Prop :=
  match a, b with
  | JDict xs, JDict ys =>
      (fix go (xs ys : list (string * jval)) {struct xs} : Prop :=
         match xs, ys with
         | [], [] => True
         | (k, v) :: xs', (k', v') :: ys' =>
             k = k' /\ same_shape v v' /\ go xs' ys'
         | _, _ => False
         end) xs ys
  | JDict _, _ => False
  | _, JDict _ => False
  | _, _ => True
  end.

(** [typenade].  [collate_errors] and [ParselglossyError] are defined in
    [parselglossy/exceptions.py]: the exception is kept by the name of its
    class, without the collated message. *)
Definition typenade (incoming types : jval) : option (result jval) :=
  match Types.rec_typenade incoming types true [] with
  | Some (Ok (outgoing, errors)) =>
      match errors with
      | [] => Some (Ok outgoing)
      | _ :: _ => Some (Raise (OtherException "ParselglossyError"))
      end
  | Some (Raise e) => Some (Raise e)
  | None => None
  end.

(** Every list among the keyword values of the tree holds strings only. *)
Fixpoint lists_hold_strings (v : jval) : bool :=
  match v with
  | JDict items => forallb (fun kv => lists_hold_strings (snd kv)) items
  | JList items =>
      forallb (fun x => match x with JScalar (SStr _) => true | _ => false end)
              items
  | JScalar _ => true
  end.

(** Two outcomes of [rec_typenade] record the same errors, or raise the
    same exception. *)
Definition same_errors (r1 r2 : option (result (jval * list Types.Error))) : Prop :=
  match r1, r2 with
  | Some (Ok (_, e1)), Some (Ok (_, e2)) => e1 = e2
  | Some (Raise x1), Some (Raise x2) => x1 = x2
  | _, _ => False
  end.


(** Input [{'scf': {'bogus': 1}}]: the section holds a keyword that the
    template does not declare. *)
Definition scf_bogus_input : heap :=
  {[ [] := [("scf", PDict ["scf"])];
     ["scf"] := [("bogus", PScalar (SInt 1))] ]}.

(** The text of one NO-BREAK SPACE, U+00A0. *)
Definition no_break_space : string :=
  String (ascii_of_N 194) (String (ascii_of_N 160) EmptyString).

(** A template with three keywords: the documentation of [a] is empty, that
    of [b] is a NO-BREAK SPACE, [c] is documented. *)
Definition blank_keywords : list keyword_spec :=
  [Keyword (Some "a") (Some "str") (Some "") None None;
   Keyword (Some "b") (Some "str") (Some no_break_space) None None;
   Keyword (Some "c") (Some "str") (Some "Documented.") None None].

Definition blank_template : template := Template None (Some blank_keywords) None.

(** An evaluator under which every predicate holds. *)
Definition always_true_eval (h : heap) (env : locals) (predicate : string)
  : heap * eval_outcome :=
  (h, Evaluated (PScalar (SBool true))).

(** [eval] leaves the store as it is. *)
Definition eval_writes_nothing
  (py_eval : heap -> locals -> string -> heap * eval_outcome) : Prop :=
  forall h env predicate, fst (py_eval h env predicate) = h.

(** Every [eval] returns a true value and leaves the store as it is. *)
Definition eval_always_holds
  (py_eval : heap -> locals -> string -> heap * eval_outcome) : Prop :=
  forall h env predicate,
    exists r, py_eval h env predicate = (h, Evaluated r) /\ truthy h r = true.

(** * Properties *)

(** ** Lists, strings and dictionaries *)

Lemma existsb_eqb_elem (x : string) (l : list string) :
  existsb (String.eqb x) l = true <-> x ∈ l.
Proof.
  rewrite existsb_exists. split.
  - intros (y & Hy & E). apply String.eqb_eq in E. subst.
    by apply list_elem_of_In.
  - intros H. exists x. split; [by apply list_elem_of_In|apply String.eqb_refl].
Qed.

Lemma existsb_eqb_not_elem (x : string) (l : list string) :
  existsb (String.eqb x) l = false <-> x ∉ l.
Proof.
  rewrite <- existsb_eqb_elem. destruct (existsb _ l); split; congruence.
Qed.

Lemma forallb_Forall_eq {A : Type} (f : A -> bool) (l : list A) :
  forallb f l = true <-> Forall (fun x => f x = true) l.
Proof.
  induction l as [|x l IH]; simpl.
  - split; [constructor|done].
  - rewrite andb_true_iff, IH. split.
    + intros [? ?]. by constructor.
    + by inversion 1.
Qed.

(** ** The type tags *)

Lemma allowed_types_ten (tag : string) :
  tag ∈ Types.allowed_types <-> tag ∈ ten_tags.
Proof.
  unfold Types.allowed_types, Types.allowed_list_types,
    Types.allowed_scalar_types, ten_tags. simpl.
  rewrite !elem_of_cons, !elem_of_nil. tauto.
Qed.

Lemma validate_allowed_types : Validate.allowed_types = Types.allowed_types.
Proof. reflexivity. Qed.

Lemma types_type_matches_cases (v : jval) (tag : string) :
  ((tag ∉ Types.allowed_types) /\
   Types.type_matches v tag = Raise (Types.unrecognized (AStr tag)))
  \/ (tag ∈ Types.allowed_types /\ exists b, Types.type_matches v tag = Ok b).
Proof.
  unfold Types.type_matches.
  destruct (existsb (String.eqb tag) Types.allowed_types) eqn:E; simpl.
  - right. split; [by apply existsb_eqb_elem|].
    destruct (list_tag_search tag); eauto.
  - left. split; [by apply existsb_eqb_not_elem|done].
Qed.

Lemma validate_type_matches_cases (v : Validate.pyval) (tag : string) :
  ((tag ∉ Validate.allowed_types) /\
   Validate.type_matches v tag
   = Raise (ValueError (Msg "could not recognize expected_type: {}" [AStr tag])))
  \/ (tag ∈ Validate.allowed_types /\ exists b, Validate.type_matches v tag = Ok b).
Proof.
  unfold Validate.type_matches.
  destruct (existsb (String.eqb tag) Validate.allowed_types) eqn:E; simpl.
  - right. split; [by apply existsb_eqb_elem|].
    destruct (list_tag_search tag); [destruct v|]; eauto.
  - left. split; [by apply existsb_eqb_not_elem|done].
Qed.

(** C7.  There are exactly ten recognized tags.  Both [type_matches]
    (types.py and validate.py) raise exactly when the tag is not one of
    them; the exception is a [ValueError] that does not depend on the
    value; for a recognized tag a boolean is returned. *)
Theorem type_matches_raises_iff_unrecognized (tag : string) :
  length Types.allowed_types = 10
  /\ NoDup Types.allowed_types
  /\ Validate.allowed_types = Types.allowed_types
  /\ (tag ∈ Types.allowed_types <-> tag ∈ ten_tags)
  /\ (forall v : jval,
        ((exists e, Types.type_matches v tag = Raise e)
         <-> tag ∉ Types.allowed_types)
        /\ (tag ∉ Types.allowed_types ->
            Types.type_matches v tag
            = Raise (ValueError (Msg "could not recognize expected_type: {}"
                                     [AStr tag])))
        /\ (tag ∈ Types.allowed_types ->
            exists b, Types.type_matches v tag = Ok b))
  /\ (forall v : Validate.pyval,
        ((exists e, Validate.type_matches v tag = Raise e)
         <-> tag ∉ Validate.allowed_types)
        /\ (tag ∉ Validate.allowed_types ->
            Validate.type_matches v tag
            = Raise (ValueError (Msg "could not recognize expected_type: {}"
                                     [AStr tag])))
        /\ (tag ∈ Validate.allowed_types ->
            exists b, Validate.type_matches v tag = Ok b)).
Proof.
  split; [reflexivity|].
  split; [apply NoDup_ListNoDup; vm_compute; repeat constructor; simpl;
          intuition discriminate|].
  split; [reflexivity|].
  split; [apply allowed_types_ten|].
  split; intros v.
  - destruct (types_type_matches_cases v tag) as [[Hn E]|[Hy [b E]]];
      rewrite E; repeat split; try done; eauto.
    intros [e He]. discriminate.
  - destruct (validate_type_matches_cases v tag) as [[Hn E]|[Hy [b E]]];
      rewrite E; repeat split; try done; eauto.
    intros [e He]. discriminate.
Qed.

(** ** List tags *)

Lemma scalar_tag_cases (T : string) :
  T ∈ Types.allowed_scalar_types ->
  T = "str" \/ T = "int" \/ T = "float" \/ T = "complex" \/ T = "bool".
Proof.
  unfold Types.allowed_scalar_types.
  rewrite !elem_of_cons, elem_of_nil. tauto.
Qed.

Lemma types_type_matches_scalar (x : jval) (T : string) :
  T ∈ Types.allowed_scalar_types ->
  Types.type_matches x T = Ok (String.eqb (Types.type_name x) T).
Proof.
  intros H. apply scalar_tag_cases in H.
  destruct H as [->|[->|[->|[->| ->]]]]; reflexivity.
Qed.

Lemma types_type_matches_list (v : jval) (T : string) :
  T ∈ Types.allowed_scalar_types ->
  Types.type_matches v ("List[" +:+ T +:+ "]") = Ok (Types._type_check_list v T).
Proof.
  intros H. apply scalar_tag_cases in H.
  destruct H as [->|[->|[->|[->| ->]]]]; reflexivity.
Qed.

Lemma validate_type_matches_scalar (x : Validate.pyval) (T : string) :
  T ∈ Validate.allowed_basic_types ->
  Validate.type_matches x T = Ok (String.eqb (Validate.type_name x) T).
Proof.
  intros H. apply scalar_tag_cases in H.
  destruct H as [->|[->|[->|[->| ->]]]]; reflexivity.
Qed.

Lemma validate_type_matches_list (v : Validate.pyval) (T : string) :
  T ∈ Validate.allowed_basic_types ->
  Validate.type_matches v ("List[" +:+ T +:+ "]")
  = Ok match v with
       | Validate.PList items =>
           forallb (fun e => String.eqb (Validate.type_name e) T) items
       | _ => false
       end.
Proof.
  intros H. apply scalar_tag_cases in H.
  destruct H as [->|[->|[->|[->| ->]]]]; destruct v; reflexivity.
Qed.

(** C8.  For a list tag [List[T]], both [type_matches] return a boolean,
    and return true exactly when the value is a list each of whose elements
    matches the scalar tag [T]; the empty list matches. *)
Theorem type_matches_list_tag (T : string) (v : jval) (pv : Validate.pyval) :
  T ∈ Types.allowed_scalar_types ->
  (exists b, Types.type_matches v ("List[" +:+ T +:+ "]") = Ok b)
  /\ (Types.type_matches v ("List[" +:+ T +:+ "]") = Ok true
      <-> exists items, v = JList items
            /\ Forall (fun x => Types.type_matches x T = Ok true) items)
  /\ Types.type_matches (JList []) ("List[" +:+ T +:+ "]") = Ok true
  /\ (exists b, Validate.type_matches pv ("List[" +:+ T +:+ "]") = Ok b)
  /\ (Validate.type_matches pv ("List[" +:+ T +:+ "]") = Ok true
      <-> exists items, pv = Validate.PList items
            /\ Forall (fun x => Validate.type_matches x T = Ok true) items)
  /\ Validate.type_matches (Validate.PList []) ("List[" +:+ T +:+ "]") = Ok true.
Proof.
  intros HT.
  rewrite !types_type_matches_list, !validate_type_matches_list by done.
  split; [eauto|]. split; [|split; [done|split; [eauto|split; [|done]]]].
  - split.
    + intros E. destruct v as [s|items|d]; simpl in E; try discriminate.
      exists items. split; [done|].
      injection E as E. apply forallb_Forall_eq in E.
      eapply Forall_impl; [exact E|]. intros x Hx. simpl in Hx.
      rewrite types_type_matches_scalar by done.
      unfold Types._type_check_scalar in Hx. by rewrite Hx.
    + intros (items & -> & H). simpl. f_equal.
      apply forallb_Forall_eq. eapply Forall_impl; [exact H|].
      intros x Hx. simpl in Hx.
      rewrite types_type_matches_scalar in Hx by done. by injection Hx.
  - split.
    + intros E. destruct pv as [s|items|a]; try discriminate.
      exists items. split; [done|].
      injection E as E. apply forallb_Forall_eq in E.
      eapply Forall_impl; [exact E|]. intros x Hx. simpl in Hx.
      rewrite validate_type_matches_scalar by done. by rewrite Hx.
    + intros (items & -> & H). f_equal.
      apply forallb_Forall_eq. eapply Forall_impl; [exact H|].
      intros x Hx. simpl in Hx.
      rewrite validate_type_matches_scalar in Hx by done. by injection Hx.
Qed.

Lemma type_matches_list_tag_witness :
  "int" ∈ Types.allowed_scalar_types
  /\ Types.type_matches (JList [JScalar (SInt 1); JScalar (SInt 2)]) "List[int]"
     = Ok true
  /\ Validate.type_matches
       (Validate.PList [Validate.PScalar (SInt 1); Validate.PScalar (SStr "2")])
       "List[int]" = Ok false.
Proof.
  assert (H : "int" ∈ Types.allowed_scalar_types)
    by (unfold Types.allowed_scalar_types; rewrite !elem_of_cons; tauto).
  split; [exact H|].
  pose proof (type_matches_list_tag "int"
                (JList [JScalar (SInt 1); JScalar (SInt 2)])
                (Validate.PList [Validate.PScalar (SInt 1);
                                 Validate.PScalar (SStr "2")]) H)
    as (_ & [_ Hiff] & _).
  split; [|reflexivity].
  apply Hiff. eexists. split; [reflexivity|].
  repeat constructor.
Defined.

(** ** The table of type fixers *)

(** Every [List[...]] entry is the lambda called in the frame the
    comprehension ended with, where [v] is [str]. *)
Lemma type_fixers_list_entries (T : string) :
  T ∈ Types.allowed_scalar_types ->
  dict_get Types.type_fixers ("List[" +:+ T +:+ "]")
  = Some (Types.list_lambda (Types.Frame "str" Types.Bstr)).
Proof.
  intros H. apply scalar_tag_cases in H.
  destruct H as [->|[->|[->|[->| ->]]]]; reflexivity.
Qed.

Lemma list_map_str_ints (l : list Z) :
  Types.list_map (Types.call_builtin Types.Bstr) (map (fun z => JScalar (SInt z)) l)
  = Some (Ok (map (fun z => JScalar (SStr (pretty z))) l)).
Proof.
  induction l as [|z l IH]; [reflexivity|].
  cbn [map Types.list_map Types.call_builtin]. by rewrite IH.
Qed.

(** C1 (what the code does).  A list of ints matches [List[int]], and the
    [List[int]] entry of [type_fixers] turns it into the list of the decimal
    texts of its elements: a list of [str], which for a non-empty list is
    not the input list (in Python an [int] never equals a [str]). *)
Theorem list_int_fixer_returns_strings (l : list Z) :
  Types.type_matches (ints l) "List[int]" = Ok true
  /\ exists fixer,
       dict_get Types.type_fixers "List[int]" = Some fixer
       /\ fixer (ints l) = Some (Ok (strs l))
       /\ (l <> [] -> strs l <> ints l).
Proof.
  split.
  - change (Ok (Types._type_check_list (ints l) "int") = Ok true). f_equal.
    unfold ints. simpl. induction l as [|z l IH]; [reflexivity|exact IH].
  - exists (Types.list_lambda (Types.Frame "str" Types.Bstr)).
    split; [reflexivity|]. split.
    + unfold Types.list_lambda, ints, strs. cbn [Types.iterate Types.frame_v].
      by rewrite list_map_str_ints.
    + destruct l as [|z l]; [done|]. intros _ E. discriminate E.
Qed.

(** [type_fixers["List[int]"]([1, 2, 3])] is [['1', '2', '3']]. *)
Example list_int_fixer_123 :
  exists fixer,
    dict_get Types.type_fixers "List[int]" = Some fixer
    /\ fixer (JList [JScalar (SInt 1); JScalar (SInt 2); JScalar (SInt 3)])
       = Some (Ok (JList [JScalar (SStr "1"); JScalar (SStr "2");
                          JScalar (SStr "3")])).
Proof. eexists. split; [reflexivity|]. vm_compute. reflexivity. Qed.

(** ** validate_node: unfolding *)


Lemma validate_node_unfold (h : heap) (v : pyval) (t : template) :
  validate_node h v t = validate_body (recurse_of t) h v t.
Proof. destruct t as [s k [ss|]]; reflexivity. Qed.

Lemma field_of_each_raises {X : Type} (key : string) (field : X -> option string)
  (xs : list X) (e : exn) :
  field_of_each key field xs = Raise e -> e = KeyError key.
Proof.
  induction xs as [|x xs IH]; simpl; [done|].
  destruct (field x); [|congruence].
  destruct (field_of_each key field xs); simpl; [done|].
  intros [= <-]. by apply IH.
Qed.

(** C10.  On a template node without a ['keywords'] entry, [validate_node]
    given a dictionary raises [KeyError] and leaves the store as it was,
    whatever the dictionary holds. *)
Theorem validate_node_without_keywords (h : heap) (a : loc) (t : template) :
  t_keywords t = None ->
  exists key,
    validate_node h (PDict a) t = (h, Raise (KeyError key))
    /\ (key = "keywords" \/ key = "section").
Proof.
  intros Hk. rewrite validate_node_unfold. unfold validate_body.
  destruct (match t_sections t with
            | Some l => field_of_each "section" t_section l
            | None => Ok []
            end) as [tss|e] eqn:Es.
  - rewrite Hk. unfold keywords_entry. rewrite Hk. eauto.
  - destruct (t_sections t); [|done].
    apply field_of_each_raises in Es as ->. eauto.
Qed.

Lemma validate_node_without_keywords_witness :
  validate_node {[ [] := [] ]} (PDict [])
    (Template None None (Some [Template (Some "scf") (Some []) None]))
  = ({[ [] := [] ]}, Raise (KeyError "keywords")).
Proof.
  destruct (validate_node_without_keywords {[ [] := [] ]} []
              (Template None None (Some [Template (Some "scf") (Some []) None]))
              eq_refl) as (key & E & _).
  rewrite E. vm_compute in E. injection E as <-. reflexivity.
Defined.


(** ** validate_node: the checks of one node *)

Lemma field_of_each_omap {X : Type} (key : string) (field : X -> option string)
  (xs : list X) (ns : list string) :
  field_of_each key field xs = Ok ns -> ns = omap field xs.
Proof.
  revert ns. induction xs as [|x xs IH]; simpl; intros ns.
  - by intros [= <-].
  - destruct (field x) as [n|]; [|done].
    destruct (field_of_each key field xs) as [ns'|]; simpl; [|done].
    intros [= <-]. f_equal. by apply IH.
Qed.

Lemma field_of_each_filter {X : Type} (key : string) (field : X -> option string)
  (P : X -> bool) (xs : list X) (ns : list string) :
  field_of_each key field xs = Ok ns ->
  field_of_each key field (filter P xs) = Ok (omap field (filter P xs)).
Proof.
  revert ns. induction xs as [|x xs IH]; simpl; intros ns; [done|].
  destruct (field x) as [n|] eqn:E; [|done].
  destruct (field_of_each key field xs) as [ns'|]; simpl; [|done].
  intros _. rewrite filter_cons. destruct (decide (P x)); [|by eapply IH].
  simpl. rewrite E. erewrite IH by done. reflexivity.
Qed.

(** What [validate_node] does on a dictionary once the template node is
    known to list its keywords and sections by name and to document every
    keyword. *)
Lemma validate_node_checks (h : heap) (a : loc) (t : template)
  (kws : list keyword_spec) (tks tss : list string) :
  t_keywords t = Some kws ->
  field_of_each "keyword" kw_keyword kws = Ok tks ->
  section_names t = Ok tss ->
  filter has_no_doc kws = [] ->
  validate_node h (PDict a) t =
    if bool_decide
         (list_to_set (keywords_of (deref h a)) ∖ list_to_set tks ≠@{gset string} ∅)
    then (h, Raise (unexpected_keywords
                      (list_to_set (keywords_of (deref h a)) ∖ list_to_set tks)))
    else if bool_decide
              (list_to_set (sections_of (deref h a)) ∖ list_to_set tss
               ≠@{gset string} ∅)
    then (h, Raise (unexpected_sections
                      (list_to_set (sections_of (deref h a)) ∖ list_to_set tss)))
    else if bool_decide
              (list_to_set (required_keywords kws)
               ∖ list_to_set (keywords_of (deref h a)) ≠@{gset string} ∅)
    then (h, Raise (must_be_set
                      (list_to_set (required_keywords kws)
                       ∖ list_to_set (keywords_of (deref h a)))))
    else
      match verify_types t (deref h a) (keywords_of (deref h a)) with
      | Raise e => (h, Raise e)
      | Ok _ =>
          match
            fill_defaults t h a
              (elements (list_to_set tks ∖ list_to_set (keywords_of (deref h a))
                         : gset string))
          with
          | (h1, Raise e) => (h1, Raise e)
          | (h1, Ok _) =>
              match descend (recurse_of t) h1 a tss with
              | (h2, Raise e) => (h2, Raise e)
              | (h2, Ok _) => (h2, Ok (PDict a))
              end
          end
      end.
Proof.
  intros Hk Htk Hts Hdoc. rewrite validate_node_unfold. unfold validate_body.
  unfold section_names in Hts. rewrite Hts, Hk, Htk.
  unfold keywords_entry. rewrite Hk. cbn [bind]. rewrite Hdoc. cbn.
  rewrite (field_of_each_filter _ _ has_no_default _ _ Htk).
  reflexivity.
Qed.

(** ** C5: a template section the input does not hold *)

(** C5 (what the code does).  The input dictionary is empty and the
    template node declares no keywords and at least one section: the loop
    over the template sections reads [input_dict[section]] and raises
    [KeyError] on the first section, leaving the store as it was. *)
Theorem validate_node_absent_section (h : heap) (a : loc) (s : string)
  (sub : template) (rest : list template) (others : list string) :
  deref h a = [] ->
  t_section sub = Some s ->
  field_of_each "section" t_section rest = Ok others ->
  validate_node h (PDict a) (Template None (Some []) (Some (sub :: rest)))
  = (h, Raise (KeyError s)).
Proof.
  intros Hd Hs Hrest.
  rewrite (validate_node_checks h a _ [] [] (s :: others)); try reflexivity.
  - rewrite Hd. cbn.
    rewrite !bool_decide_eq_false_2 by set_solver.
    replace (elements _) with (@nil string)
      by (symmetry; apply elements_empty_iff; set_solver).
    cbn. rewrite Hd. reflexivity.
  - unfold section_names. cbn. rewrite Hs, Hrest. reflexivity.
Qed.

Lemma validate_node_absent_section_witness :
  validate_node {[ [] := [] ]} (PDict [])
    (Template None (Some []) (Some [Template (Some "scf") (Some []) None]))
  = ({[ [] := [] ]}, Raise (KeyError "scf")).
Proof.
  apply (validate_node_absent_section {[ [] := [] ]} [] "scf"
           (Template (Some "scf") (Some []) None) [] []); reflexivity.
Defined.


(** ** Induction on templates *)

Lemma template_induction (P : template -> Prop) :
  (forall s k, P (Template s k None)) ->
  (forall s k l, Forall P l -> P (Template s k (Some l))) ->
  forall t, P t.
Proof.
  intros leaf node. fix IH 1. intros [s k [l|]]; [|apply leaf].
  apply node. induction l as [|x l IHl]; constructor; [apply IH|exact IHl].
Qed.

(** ** Dictionaries: keys and values *)

Lemma elem_of_map {A B : Type} (f : A -> B) (l : list A) (y : B) :
  y ∈ map f l <-> exists x, y = f x /\ x ∈ l.
Proof.
  rewrite list_elem_of_In, in_map_iff. split.
  - intros (x & <- & H). exists x. by rewrite list_elem_of_In.
  - intros (x & -> & H). exists x. by rewrite <- list_elem_of_In.
Qed.

Section DictFacts.
Context {V : Type}.
Implicit Types (d : list (string * V)) (k : string) (v : V).

Lemma dict_get_set_eq d k v : dict_get (dict_set d k v) k = Some v.
Proof.
  induction d as [|[k' v'] d IH]; simpl.
  - by rewrite String.eqb_refl.
  - destruct (String.eqb k' k) eqn:E; simpl; rewrite E; [done|apply IH].
Qed.

Lemma dict_get_set_ne d k k' v :
  k <> k' -> dict_get (dict_set d k v) k' = dict_get d k'.
Proof.
  intros Hne. induction d as [|[k0 v0] d IH]; simpl.
  - destruct (String.eqb k k') eqn:E; [|done].
    apply String.eqb_eq in E. done.
  - destruct (String.eqb k0 k) eqn:E; simpl.
    + apply String.eqb_eq in E. subst k0.
      destruct (String.eqb k k') eqn:E'; [|done].
      apply String.eqb_eq in E'. done.
    + by rewrite IH.
Qed.

Lemma dict_set_same d k v : dict_get d k = Some v -> dict_set d k v = d.
Proof.
  induction d as [|[k' v'] d IH]; simpl; [done|].
  destruct (String.eqb k' k) eqn:E.
  - by intros [= ->].
  - intros H. by rewrite IH.
Qed.

Lemma dict_keys_set d k v k' :
  k' ∈ dict_keys (dict_set d k v) <-> k' = k \/ k' ∈ dict_keys d.
Proof.
  unfold dict_keys. induction d as [|[k0 v0] d IH]; simpl.
  - rewrite elem_of_cons, elem_of_nil. tauto.
  - destruct (String.eqb k0 k) eqn:E; simpl.
    + apply String.eqb_eq in E. subst. rewrite !elem_of_cons. tauto.
    + rewrite !elem_of_cons, IH. tauto.
Qed.

Lemma dict_get_is_Some d k : is_Some (dict_get d k) <-> k ∈ dict_keys d.
Proof.
  unfold dict_keys. induction d as [|[k0 v0] d IH]; simpl.
  - rewrite elem_of_nil. split; [by intros [? ?]|done].
  - rewrite elem_of_cons. destruct (String.eqb k0 k) eqn:E.
    + apply String.eqb_eq in E. subst. split; eauto.
    + apply String.eqb_neq in E. rewrite IH. split; [tauto|].
      intros [->|H]; done.
Qed.

Lemma dict_get_elem d k v : dict_get d k = Some v -> (k, v) ∈ d.
Proof.
  induction d as [|[k0 v0] d IH]; simpl; [done|].
  destruct (String.eqb k0 k) eqn:E.
  - apply String.eqb_eq in E. intros [= ->]. subst. left.
  - intros H. right. by apply IH.
Qed.
End DictFacts.

(** ** The store *)

Lemma deref_store_eq (h : heap) (a : loc) (k : string) (v : pyval) :
  deref (store h a k v) a = dict_set (deref h a) k v.
Proof. unfold deref at 1, store. by rewrite lookup_insert_eq. Qed.

Lemma deref_store_ne (h : heap) (a b : loc) (k : string) (v : pyval) :
  a <> b -> deref (store h a k v) b = deref h b.
Proof. intros H. unfold deref, store. by rewrite lookup_insert_ne. Qed.

Lemma keeps_keys_refl (h : heap) : keeps_keys h h.
Proof. by intros b k. Qed.

Lemma keeps_keys_trans (h1 h2 h3 : heap) :
  keeps_keys h1 h2 -> keeps_keys h2 h3 -> keeps_keys h1 h3.
Proof. intros H12 H23 b k H. by apply H23, H12. Qed.

Lemma keeps_keys_store (h : heap) (a : loc) (k : string) (v : pyval) :
  keeps_keys h (store h a k v).
Proof.
  intros b k' H. destruct (decide (a = b)) as [<-|Hne].
  - rewrite deref_store_eq. apply dict_keys_set. by right.
  - by rewrite deref_store_ne.
Qed.

Lemma store_key (h : heap) (a : loc) (k : string) (v : pyval) :
  k ∈ dict_keys (deref (store h a k v) a).
Proof. rewrite deref_store_eq. apply dict_keys_set. by left. Qed.

Lemma length_field_of_each {X : Type} (key : string) (field : X -> option string)
  (xs : list X) (ns : list string) :
  field_of_each key field xs = Ok ns -> length ns = length xs.
Proof.
  revert ns. induction xs as [|x xs IH]; simpl; intros ns.
  - by intros [= <-].
  - destruct (field x) as [n|]; [|done].
    destruct (field_of_each key field xs) as [ns'|]; simpl; [|done].
    intros [= <-]. simpl. f_equal. by apply IH.
Qed.

(** What a successful call went through. *)
Lemma validate_node_ok_inv (h : heap) (v : pyval) (t : template)
  (h' : heap) (r : pyval) :
  validate_node h v t = (h', Ok r) ->
  exists a kws tks tss h1,
    v = PDict a /\ r = PDict a
    /\ t_keywords t = Some kws
    /\ field_of_each "keyword" kw_keyword kws = Ok tks
    /\ section_names t = Ok tss
    /\ filter has_no_doc kws = []
    /\ list_to_set (keywords_of (deref h a)) ∖ list_to_set tks =@{gset string} ∅
    /\ list_to_set (sections_of (deref h a)) ∖ list_to_set tss =@{gset string} ∅
    /\ list_to_set (required_keywords kws)
       ∖ list_to_set (keywords_of (deref h a)) =@{gset string} ∅
    /\ verify_types t (deref h a) (keywords_of (deref h a)) = Ok tt
    /\ fill_defaults t h a
         (elements (list_to_set tks ∖ list_to_set (keywords_of (deref h a))
                    : gset string)) = (h1, Ok tt)
    /\ descend (recurse_of t) h1 a tss = (h', Ok tt).
Proof.
  intros H. rewrite validate_node_unfold in H. unfold validate_body in H.
  destruct v as [sc|items|a]; try discriminate H.
  exists a. unfold section_names.
  destruct (match t_sections t with
            | Some l => field_of_each "section" t_section l
            | None => Ok []
            end) as [tss|] eqn:Es; [|discriminate H].
  unfold keywords_entry in H.
  destruct (t_keywords t) as [kws|] eqn:Ek; [|discriminate H].
  destruct (field_of_each "keyword" kw_keyword kws) as [tks|] eqn:Etk;
    [|discriminate H].
  exists kws, tks, tss. cbn [bind] in H.
  pose proof (field_of_each_filter _ _ has_no_doc _ _ Etk) as Edoc.
  rewrite Edoc in H.
  rewrite (field_of_each_filter _ _ has_no_default _ _ Etk) in H.
  destruct (0 <? length _)%nat eqn:Elen; [discriminate H|].
  case_bool_decide as E1; [discriminate H|].
  case_bool_decide as E2; [discriminate H|].
  case_bool_decide as E3; [discriminate H|].
  destruct (verify_types _ _ _) as [[]|] eqn:Ev; [|discriminate H].
  destruct (fill_defaults _ _ _ _) as [h1 [[]|]] eqn:Ef; [|discriminate H].
  destruct (descend _ _ _ _) as [h2 [[]|]] eqn:Ed; [|discriminate H].
  injection H as <- <-. exists h1.
  apply Nat.ltb_ge in Elen.
  apply length_field_of_each in Edoc.
  repeat split; try done; try by apply dec_stable.
  destruct (filter _ kws); [done|]. simpl in *. lia.
Qed.

Lemma first_named_elem {X : Type} (key : string) (field : X -> option string)
  (name : string) (xs : list X) (x : X) :
  first_named key field name xs = Ok x -> x ∈ xs /\ field x = Some name.
Proof.
  induction xs as [|y xs IH]; simpl; [done|].
  destruct (field y) as [n|] eqn:E; [|done].
  destruct (first_named key field name xs) as [x'|e] eqn:E'.
  - destruct (String.eqb n name) eqn:En.
    + intros [= <-]. apply String.eqb_eq in En. subst. split; [left|done].
    + intros [= <-]. destruct IH as [? ?]; [done|]. split; [by right|done].
  - destruct (String.eqb n name) eqn:En.
    + apply String.eqb_eq in En. subst.
      destruct e; intros [= <-]; (split; [left|done]).
    + destruct e; discriminate.
Qed.

(** ** validate_node never removes a key *)

Lemma fill_defaults_keeps_keys (t : template) (a : loc) (missing : list string)
  (h h1 : heap) (r : result unit) :
  fill_defaults t h a missing = (h1, r) ->
  keeps_keys h h1
  /\ (r = Ok tt -> forall k, k ∈ missing -> k ∈ dict_keys (deref h1 a)).
Proof.
  revert h. induction missing as [|k missing IH]; simpl; intros h.
  - intros [= <- <-]. split; [apply keeps_keys_refl|].
    intros _ k Hk. by apply elem_of_nil in Hk.
  - destruct (bind _ _) as [kw|e]; [|intros [= <- <-]; split;
                                      [apply keeps_keys_refl|done]].
    destruct (kw_default kw) as [dflt|];
      [|intros [= <- <-]; split; [apply keeps_keys_refl|done]].
    intros H. apply IH in H as [Hkeep Hall]. split.
    + eapply keeps_keys_trans; [apply keeps_keys_store|exact Hkeep].
    + intros Hr k' Hk'. apply elem_of_cons in Hk' as [->|Hk'].
      * apply Hkeep, store_key.
      * by apply Hall.
Qed.

Lemma descend_keeps_keys
  (recurse : list (option string * (heap -> pyval -> heap * result pyval)))
  (a : loc) (tss : list string) (h h' : heap) (r : result unit) :
  calls_keep_keys recurse ->
  descend recurse h a tss = (h', r) ->
  keeps_keys h h'
  /\ (r = Ok tt -> forall s, s ∈ tss -> s ∈ dict_keys (deref h' a)).
Proof.
  intros Hrec. revert h. induction tss as [|s tss IH]; simpl; intros h.
  - intros [= <- <-]. split; [apply keeps_keys_refl|].
    intros _ k Hk. by apply elem_of_nil in Hk.
  - destruct (dict_get (deref h a) s) as [input_section|] eqn:Eg;
      [|intros [= <- <-]; split; [apply keeps_keys_refl|done]].
    destruct (first_named "section" fst s recurse) as [nf|e] eqn:Ef;
      [|intros [= <- <-]; split; [apply keeps_keys_refl|done]].
    apply first_named_elem in Ef as [Hin _].
    unfold calls_keep_keys in Hrec. rewrite Forall_forall in Hrec.
    destruct (snd nf h input_section) as [h1 [validated|e]] eqn:Ec.
    + apply (Hrec _ Hin) in Ec. intros H. apply IH in H as [Hkeep Hall].
      assert (Hk : keeps_keys h h').
      { eapply keeps_keys_trans; [exact Ec|].
        eapply keeps_keys_trans; [apply keeps_keys_store|exact Hkeep]. }
      split; [exact Hk|].
      intros Hr s' Hs'. apply elem_of_cons in Hs' as [->|Hs'].
      * apply Hk. apply dict_get_is_Some. by rewrite Eg.
      * by apply Hall.
    + apply (Hrec _ Hin) in Ec. intros [= <- <-]. split; [exact Ec|done].
Qed.

Lemma validate_body_keeps_keys
  (recurse : list (option string * (heap -> pyval -> heap * result pyval)))
  (h : heap) (v : pyval) (t : template) (h' : heap) (r : result pyval) :
  calls_keep_keys recurse ->
  validate_body recurse h v t = (h', r) -> keeps_keys h h'.
Proof.
  intros Hrec. unfold validate_body.
  destruct v as [sc|items|a]; try (intros [= <- <-]; apply keeps_keys_refl).
  repeat (case_match; try (intros [= <- <-]; apply keeps_keys_refl)).
  all: repeat match goal with
         | H : fill_defaults _ _ _ _ = _ |- _ =>
             apply fill_defaults_keeps_keys in H as [? _]
         | H : descend _ _ _ _ = _ |- _ =>
             apply (descend_keeps_keys _ _ _ _ _ _ Hrec) in H as [? _]
         end.
  all: intros [= <- <-]; eauto using keeps_keys_trans.
Qed.

Lemma validate_node_keeps_keys (t : template) :
  forall h v h' r, validate_node h v t = (h', r) -> keeps_keys h h'.
Proof.
  induction t as [s k|s k l IH] using template_induction; intros h v h' r;
    rewrite validate_node_unfold; apply validate_body_keeps_keys.
  - constructor.
  - unfold recurse_of, calls_keep_keys. cbn [t_sections].
    induction IH as [|x l Hx _ IHl]; constructor; [|exact IHl].
    cbn [snd]. exact Hx.
Qed.

Lemma recurse_of_keeps_keys (t : template) : calls_keep_keys (recurse_of t).
Proof.
  unfold calls_keep_keys, recurse_of. destruct (t_sections t) as [l|]; [|constructor].
  induction l as [|x l IH]; constructor; [|exact IH].
  cbn [snd]. apply validate_node_keeps_keys.
Qed.

Lemma keywords_of_keys (d : list (string * pyval)) (k : string) :
  k ∈ keywords_of d -> k ∈ dict_keys d.
Proof. unfold keywords_of. rewrite list_elem_of_filter. tauto. Qed.

(** ** C2: the input dictionary is written to and returned *)

(** C2 (counterexample).  The input is the empty dictionary [{}]: the call
    writes the default into it and returns the same object. *)
Lemma validate_node_writes_into_input :
  validate_node {[ [] := [] ]} (PDict []) number_template
  = ({[ [] := [("n", PScalar (SInt 0))] ]}, Ok (PDict []))
  /\ ~ returns_fresh_tree {[ [] := [] ]} [] number_template.
Proof.
  assert (E : validate_node {[ [] := [] ]} (PDict []) number_template
              = ({[ [] := [("n", PScalar (SInt 0))] ]}, Ok (PDict [])))
    by (vm_compute; reflexivity).
  split; [exact E|].
  intros H. destruct (H _ _ E) as [_ Hne]. by apply Hne.
Qed.

(** C2 (amended).  A successful [validate_node] returns the very object it
    was given; no dictionary of the store loses a key; and every keyword and
    every section the template node declares is then a key of that
    object. *)
Theorem validate_node_fills_input_in_place (h : heap) (a : loc) (t : template)
  (h' : heap) (r : pyval) :
  validate_node h (PDict a) t = (h', Ok r) ->
  r = PDict a
  /\ keeps_keys h h'
  /\ (forall x, declares_keyword t x \/ declares_section t x ->
                x ∈ dict_keys (deref h' a)).
Proof.
  intros H. pose proof (validate_node_keeps_keys _ _ _ _ _ H) as Hkeep.
  apply validate_node_ok_inv in H
    as (a' & kws & tks & tss & h1 & [= <-] & -> & Hk & Htk & Hts & _ & _ & _ & _
        & _ & Hfill & Hdesc).
  split; [done|]. split; [done|].
  apply fill_defaults_keeps_keys in Hfill as [Hk1 Hfilled].
  apply (descend_keeps_keys _ _ _ _ _ _ (recurse_of_keeps_keys t)) in Hdesc
    as [Hk2 Hsections].
  intros x [(kws' & kw & Hk' & Hin & Hname)|(ss & sub & Hss & Hin & Hname)].
  - rewrite Hk in Hk'. injection Hk' as <-.
    apply field_of_each_omap in Htk. subst tks.
    assert (Hx : x ∈ omap kw_keyword kws) by (apply list_elem_of_omap; eauto).
    destruct (decide (x ∈ keywords_of (deref h a))) as [Hi|Hni].
    + by apply Hkeep, keywords_of_keys.
    + apply Hk2, Hfilled; [done|]. apply elem_of_elements.
      apply elem_of_difference. rewrite !elem_of_list_to_set. done.
  - apply Hsections; [done|]. unfold section_names in Hts. rewrite Hss in Hts.
    apply field_of_each_omap in Hts. subst tss.
    apply list_elem_of_omap. eauto.
Qed.

Lemma validate_node_fills_input_in_place_witness :
  validate_node {[ [] := [] ]} (PDict []) number_template
  = ({[ [] := [("n", PScalar (SInt 0))] ]}, Ok (PDict []))
  /\ "n" ∈ dict_keys (deref {[ [] := [("n", PScalar (SInt 0))] ]} []).
Proof.
  assert (E : validate_node {[ [] := [] ]} (PDict []) number_template
              = ({[ [] := [("n", PScalar (SInt 0))] ]}, Ok (PDict [])))
    by (vm_compute; reflexivity).
  split; [exact E|].
  destruct (validate_node_fills_input_in_place _ _ _ _ _ E) as (_ & _ & Hall).
  apply Hall. left. eexists _, _. split; [reflexivity|]. split; [left|reflexivity].
Defined.

(** ** C3: the first failing check raises *)



(** ** rec_typenade: the loop over the items *)

Lemma rec_typenade_dict (items : list (string * jval)) (types : jval)
  (fixate : bool) (address : list string) :
  Types.rec_typenade (JDict items) types fixate address
  = typenade_loop types fixate address items [] [].
Proof.
  cbn [Types.rec_typenade].
  generalize (@nil (string * jval)) (@nil Types.Error).
  induction items as [|[k v] rest IH]; intros outgoing errors; [reflexivity|].
  cbn [typenade_loop]. destruct v as [s|l|d].
  - destruct (Types.check_keyword _ _ _ _ _) as [[[out_k errs_k]|]|]; try done.
  - destruct (Types.check_keyword _ _ _ _ _) as [[[out_k errs_k]|]|]; try done.
  - destruct (Types.subscript types k) as [types_k|]; [|done].
    destruct (Types.rec_typenade _ _ _ _) as [[[out_k errs_k]|]|]; try done.
Qed.

(** A step of the loop either stops or goes on with one more item set and
    some errors appended. *)
Lemma typenade_loop_cons types fixate address k v rest outgoing errors out errs :
  typenade_loop types fixate address ((k, v) :: rest) outgoing errors
  = Some (Ok (out, errs)) ->
  exists out_k errs_k,
    typenade_loop types fixate address rest
      (dict_set outgoing k out_k) (errors ++ errs_k) = Some (Ok (out, errs))
    /\ ((forall d, v <> JDict d) ->
        Types.check_keyword types fixate address k v = Some (Ok (out_k, errs_k))).
Proof.
  cbn [typenade_loop]. intros H.
  destruct v as [s|l|d].
  - destruct (Types.check_keyword _ _ _ _ _) as [[[out_k errs_k]|]|];
      try discriminate H. eauto.
  - destruct (Types.check_keyword _ _ _ _ _) as [[[out_k errs_k]|]|];
      try discriminate H. eauto.
  - destruct (Types.subscript types k) as [types_k|]; [|discriminate H].
    destruct (Types.rec_typenade _ _ _ _) as [[[out_k errs_k]|]|];
      try discriminate H.
    exists out_k, errs_k. split; [exact H|]. intros Hd. by destruct (Hd d).
Qed.

(** Items already set under other keys, and errors already recorded, are
    still there when the loop ends. *)
Lemma typenade_loop_frame types fixate address items outgoing errors out errs :
  typenade_loop types fixate address items outgoing errors = Some (Ok (out, errs)) ->
  exists outd,
    out = JDict outd
    /\ (forall k, k ∉ dict_keys items -> dict_get outd k = dict_get outgoing k)
    /\ (forall e, e ∈ errors -> e ∈ errs).
Proof.
  revert outgoing errors. induction items as [|[k v] rest IH]; intros outgoing errors.
  - intros [= <- <-]. eauto.
  - intros H. apply typenade_loop_cons in H as (out_k & errs_k & H & _).
    apply IH in H as (outd & -> & Hget & Herr). exists outd. split; [done|]. split.
    + intros k' Hk'. cbn in Hk'. apply not_elem_of_cons in Hk' as [Hne Hk'].
      rewrite Hget by done. by apply dict_get_set_ne.
    + intros e He. apply Herr, elem_of_app. by left.
Qed.

(** The outcome of the keyword branch decides what the loop records for
    that keyword. *)
Lemma typenade_loop_records types fixate address items outgoing errors out errs
  k v out_k errs_k :
  NoDup (dict_keys items) ->
  dict_get items k = Some v ->
  (forall d, v <> JDict d) ->
  Types.check_keyword types fixate address k v = Some (Ok (out_k, errs_k)) ->
  typenade_loop types fixate address items outgoing errors = Some (Ok (out, errs)) ->
  exists outd,
    out = JDict outd /\ dict_get outd k = Some out_k
    /\ (forall e, e ∈ errs_k -> e ∈ errs).
Proof.
  intros Hnd Hget Hleaf Hck. revert outgoing errors Hnd Hget.
  induction items as [|[k' v'] rest IH]; intros outgoing errors Hnd Hget;
    [discriminate Hget|].
  intros H. apply typenade_loop_cons in H as (out' & errs' & H & Hleaf').
  cbn in Hnd. apply NoDup_cons in Hnd as [Hnotin Hnd].
  cbn [dict_get] in Hget. destruct (String.eqb k' k) eqn:E.
  - apply String.eqb_eq in E. subst k'. injection Hget as ->.
    specialize (Hleaf' Hleaf). rewrite Hck in Hleaf'.
    injection Hleaf' as <- <-.
    apply typenade_loop_frame in H as (outd & -> & Hframe & Herr).
    exists outd. split; [done|]. split.
    + rewrite Hframe by done. apply dict_get_set_eq.
    + intros e He. apply Herr, elem_of_app. by right.
  - eapply IH; eauto.
Qed.

(** ** C6: a value of the wrong type *)

Lemma verify_types_app (t : template) (d : list (string * pyval))
  (pre rest : list string) :
  verify_types t d (pre ++ rest)
  = bind (verify_types t d pre) (fun _ => verify_types t d rest).
Proof.
  induction pre as [|k pre IH]; [reflexivity|]. cbn [app verify_types].
  destruct (keywords_entry t) as [kws|]; [|reflexivity]. cbn [bind].
  destruct (first_named _ _ _ _) as [kw|]; [|reflexivity]. cbn [bind].
  destruct (kw_type kw) as [ty|]; [|reflexivity].
  destruct (dict_get d k) as [v|]; [|reflexivity].
  destruct (Validate.type_matches v ty) as [[]|]; cbn [bind]; [exact IH|done|done].
Qed.

Lemma check_keyword_mismatch (types : jval) (fixate : bool)
  (address : list string) (k : string) (v : jval) (ty : string) :
  (forall d, v <> JDict d) ->
  v <> JScalar SNone ->
  Types.subscript types k = Ok (JScalar (SStr ty)) ->
  Types.type_matches v ty = Ok false ->
  Types.check_keyword types fixate address k v
  = Some (Ok (JScalar SNone, [Types.mismatch address k v (JScalar (SStr ty))])).
Proof.
  intros Hleaf Hnone Hsub Hm. unfold Types.check_keyword. rewrite Hsub.
  unfold Types.type_matches_declared. rewrite Hm.
  destruct v as [[]|l|d]; try reflexivity. done.
Qed.

Lemma check_keyword_none (types : jval) (fixate : bool)
  (address : list string) (k : string) (declared : jval) :
  Types.subscript types k = Ok declared ->
  Types.check_keyword types fixate address k (JScalar SNone)
  = Some (Ok (JScalar SNone, [Types.no_value address k])).
Proof. intros Hsub. unfold Types.check_keyword. by rewrite Hsub. Qed.

Lemma five_incorrect_type :
  validate_node five_input (PDict []) number_template
  = (five_input, Raise (incorrect_type "n" "int")).
Proof. vm_compute. reflexivity. Qed.

(** C6 (counterexample).  Keyword [n] is declared [int] and the input holds
    the string ['5']: the error names [n] and [int], not [str]. *)
Lemma validate_node_mismatch_omits_actual_type :
  ~ mismatch_names_both_types five_input [] number_template.
Proof.
  intros H.
  destruct (H "n" (PScalar (SStr "5")) _ _ "int" eq_refl eq_refl eq_refl
              eq_refl eq_refl) as (m & Hm & Hactual & _).
  rewrite five_incorrect_type in Hm. injection Hm as <-.
  unfold names in Hactual. cbn [msg_args Validate.type_name scalar_type_name] in Hactual.
  apply Exists_cons in Hactual as [[=]|Hactual].
  apply Exists_cons in Hactual as [[=]|Hactual].
  by apply Exists_nil in Hactual.
Qed.

(** C6 (amended).  In [validate_node], once the checks on the keys have
    passed, the first input keyword whose value does not match its declared
    type raises an [InputError] that names the keyword and the declared type
    and nothing else; the store is left as it was.  In [rec_typenade], a
    keyword whose value is not [None] and does not match its declared type
    is recorded as an error that names the type of the value and the
    declared type, and its outgoing value is [None]; a keyword whose value is
    [None] is recorded as "required but has no value". *)
Theorem type_mismatch_is_reported :
  (forall (h : heap) (a : loc) (t : template) (kws : list keyword_spec)
          (tks tss pre post : list string) (k ty : string) (kw : keyword_spec)
          (v : pyval),
      t_keywords t = Some kws ->
      field_of_each "keyword" kw_keyword kws = Ok tks ->
      section_names t = Ok tss ->
      filter has_no_doc kws = [] ->
      list_to_set (keywords_of (deref h a)) ∖ list_to_set tks =@{gset string} ∅ ->
      list_to_set (sections_of (deref h a)) ∖ list_to_set tss =@{gset string} ∅ ->
      list_to_set (required_keywords kws)
        ∖ list_to_set (keywords_of (deref h a)) =@{gset string} ∅ ->
      keywords_of (deref h a) = pre ++ k :: post ->
      verify_types t (deref h a) pre = Ok tt ->
      first_named "keyword" kw_keyword k kws = Ok kw ->
      kw_type kw = Some ty ->
      dict_get (deref h a) k = Some v ->
      Validate.type_matches v ty = Ok false ->
      validate_node h (PDict a) t
      = (h, Raise (InputError
                     (Msg "incorrect type for keyword: {0}, expected '{1}' type"
                          [AStr k; AStr ty])))
      /\ forall x,
           names (Msg "incorrect type for keyword: {0}, expected '{1}' type"
                      [AStr k; AStr ty]) x <-> x = k \/ x = ty)
  /\ (forall (items : list (string * jval)) (types : jval) (fixate : bool)
             (address : list string) (k : string) (v : jval) (declared : jval)
             (out : jval) (errs : list Types.Error),
        NoDup (dict_keys items) ->
        dict_get items k = Some v ->
        (forall d, v <> JDict d) ->
        Types.subscript types k = Ok declared ->
        Types.rec_typenade (JDict items) types fixate address
        = Some (Ok (out, errs)) ->
        exists outd,
          out = JDict outd
          /\ (v = JScalar SNone ->
              dict_get outd k = Some (JScalar SNone)
              /\ Types.MkError (address ++ [k])
                   (Msg "Keyword '{0}' is required but has no value" [AStr k])
                 ∈ errs)
          /\ (forall ty,
                v <> JScalar SNone ->
                declared = JScalar (SStr ty) ->
                Types.type_matches v ty = Ok false ->
                dict_get outd k = Some (JScalar SNone)
                /\ Types.MkError (address ++ [k])
                     (Msg "Actual ({0}) and declared ({1}) types do not match"
                          [AStr (Types.type_name v); AStr ty])
                   ∈ errs
                /\ names (Msg "Actual ({0}) and declared ({1}) types do not match"
                              [AStr (Types.type_name v); AStr ty])
                         (Types.type_name v)
                /\ names (Msg "Actual ({0}) and declared ({1}) types do not match"
                              [AStr (Types.type_name v); AStr ty]) ty)).
Proof.
  split.
  - intros h a t kws tks tss pre post k ty kw v Hk Htk Hts Hdoc E1 E2 E3 Hkeys
           Hpre Hkw Hty Hget Hm.
    rewrite (validate_node_checks h a t kws tks tss Hk Htk Hts Hdoc).
    rewrite !bool_decide_eq_false_2 by (by intros ?).
    rewrite Hkeys, verify_types_app, Hpre. cbn [bind verify_types].
    unfold keywords_entry. rewrite Hk. cbn [bind]. rewrite Hkw. cbn [bind].
    rewrite Hty, Hget, Hm. cbn [bind]. split; [reflexivity|].
    intros x. unfold names. cbn [msg_args].
    rewrite !Exists_cons, Exists_nil. cbn [arg_names]. naive_solver.
  - intros items types fixate address k v declared out errs Hnd Hget Hleaf Hsub H.
    rewrite rec_typenade_dict in H.
    pose proof (typenade_loop_frame _ _ _ _ _ _ _ _ H) as (outd & -> & _ & _).
    exists outd. split; [done|]. split.
    + intros ->.
      destruct (typenade_loop_records _ _ _ _ _ _ _ _ _ _ _ _ Hnd Hget Hleaf
                  (check_keyword_none _ fixate address _ _ Hsub) H)
        as (outd' & [= <-] & Hout & Herr).
      split; [done|]. apply Herr. left.
    + intros ty Hnone -> Hm.
      destruct (typenade_loop_records _ _ _ _ _ _ _ _ _ _ _ _ Hnd Hget Hleaf
                  (check_keyword_mismatch _ fixate address _ _ _ Hleaf Hnone Hsub Hm)
                  H)
        as (outd' & [= <-] & Hout & Herr).
      split; [done|]. split; [apply Herr; left|].
      unfold names. cbn [msg_args]. split; [by left|right; by left].
Qed.

Lemma type_mismatch_is_reported_witness :
  validate_node five_input (PDict []) number_template
  = (five_input, Raise (incorrect_type "n" "int"))
  /\ exists outd,
       Types.rec_typenade (JDict [("n", JScalar (SStr "5"))])
         (JDict [("n", JScalar (SStr "int"))]) true []
       = Some (Ok (JDict outd,
                   [Types.MkError ["n"]
                      (Msg "Actual ({0}) and declared ({1}) types do not match"
                           [AStr "str"; AStr "int"])]))
       /\ dict_get outd "n" = Some (JScalar SNone).
Proof.
  destruct type_mismatch_is_reported as [Hvalidate Htypenade].
  split.
  - refine (proj1 (Hvalidate five_input [] number_template [number_keyword]
                     ["n"] [] [] [] "n" "int" number_keyword (PScalar (SStr "5"))
                     _ _ _ _ _ _ _ _ _ _ _ _ _)); reflexivity.
  - destruct (Htypenade [("n", JScalar (SStr "5"))]
                (JDict [("n", JScalar (SStr "int"))]) true [] "n"
                (JScalar (SStr "5")) (JScalar (SStr "int"))
                (JDict [("n", JScalar SNone)])
                [Types.MkError ["n"]
                   (Msg "Actual ({0}) and declared ({1}) types do not match"
                        [AStr "str"; AStr "int"])])
      as (outd & [= <-] & _ & Hm); try reflexivity; try done.
    + apply NoDup_cons. split; [apply not_elem_of_nil|apply NoDup_nil_2].
    + exists [("n", JScalar SNone)]. split; [reflexivity|].
      by destruct (Hm "int") as [? _].
Defined.

(** ** C9: check_predicates_node *)

Section PredicateFacts.
Variable py_eval : heap -> locals -> string -> heap * eval_outcome.

Lemma check_predicates_node_unfold (h : heap) (input_dict v : pyval) (t : template) :
  check_predicates_node py_eval h input_dict v t
  = check_predicates_body py_eval (recurse_predicates_of py_eval input_dict t)
      h input_dict v t.
Proof. destruct t as [s k [ss|]]; reflexivity. Qed.

Lemma check_each_app (frame : string -> option pyval -> locals) (keyword : string)
  (pre rest : list string) (h : heap) (r : option pyval) :
  check_each py_eval frame keyword h r (pre ++ rest)
  = match check_each py_eval frame keyword h r pre with
    | (h', Ok r') => check_each py_eval frame keyword h' r' rest
    | (h', Raise e) => (h', Raise e)
    end.
Proof.
  revert h r. induction pre as [|p pre IH]; intros h r; [reflexivity|].
  cbn [app check_each].
  destruct (py_eval h (frame p r) p) as [h' [r'|e]].
  - destruct (negb (truthy h' r')); [reflexivity|apply IH].
  - by destruct e.
Qed.

Lemma check_keywords_app (input_dict : pyval) (a : loc) (t : template)
  (iss iks tss pre rest : list string) (h : heap) (r : option pyval) :
  check_keywords py_eval input_dict a t iss iks tss h r (pre ++ rest)
  = match check_keywords py_eval input_dict a t iss iks tss h r pre with
    | (h', Ok r') => check_keywords py_eval input_dict a t iss iks tss h' r' rest
    | (h', Raise e) => (h', Raise e)
    end.
Proof.
  revert h r. induction pre as [|k pre IH]; intros h r; [reflexivity|].
  cbn [app check_keywords].
  destruct (bind _ _) as [kw|]; [|reflexivity].
  destruct (dict_get (deref h a) k) as [v|]; [|reflexivity].
  destruct (kw_predicates kw) as [ps|]; [|apply IH].
  destruct (check_each _ _ _ _ _ _) as [h' [r'|e]]; [apply IH|reflexivity].
Qed.

(** C9.  The keywords before [k] and the predicates of [k] before [p] have
    passed, and [eval(p)] is reached.  If it returns a false value, the call
    raises an [InputError] naming [p] and [k]; if it raises [SyntaxError],
    the call raises a [TemplateError] naming [p] and [k]; if it raises
    anything else, that exception leaves the call as it is. *)
Theorem failing_predicate_outcomes (h : heap) (input_dict : pyval) (a : loc)
  (t : template) (tss pre post : list string) (k : string) (kw : keyword_spec)
  (v : pyval) (ppre ppost : list string) (p : string) (h1 h2 h3 : heap)
  (r1 r2 : option pyval) (outcome : eval_outcome) :
  section_names t = Ok tss ->
  keywords_of (deref h a) = pre ++ k :: post ->
  check_keywords py_eval input_dict a t (sections_of (deref h a))
    (keywords_of (deref h a)) tss h None pre = (h1, Ok r1) ->
  bind (keywords_entry t) (first_named "keyword" kw_keyword k) = Ok kw ->
  dict_get (deref h1 a) k = Some v ->
  kw_predicates kw = Some (ppre ++ p :: ppost) ->
  check_each py_eval
    (Locals input_dict (PDict a) t (sections_of (deref h a))
            (keywords_of (deref h a)) tss k kw v) k h1 r1 ppre = (h2, Ok r2) ->
  py_eval h2
    (Locals input_dict (PDict a) t (sections_of (deref h a))
            (keywords_of (deref h a)) tss k kw v p r2) p = (h3, outcome) ->
  (forall r, outcome = Evaluated r -> truthy h3 r = false ->
     check_predicates_node py_eval h input_dict (PDict a) t
     = (h3, Raise (InputError (Msg "predicate {} failed in keyword {}"
                                   [AStr p; AStr k]))))
  /\ (outcome = Raised SyntaxError ->
      check_predicates_node py_eval h input_dict (PDict a) t
      = (h3, Raise (TemplateError (Msg "syntax error in predicate {} in keyword {}"
                                       [AStr p; AStr k]))))
  /\ (forall e, outcome = Raised e -> e <> SyntaxError ->
        check_predicates_node py_eval h input_dict (PDict a) t = (h3, Raise e)
        /\ ((forall m, e <> InputError m) -> (forall m, e <> TemplateError m) ->
            forall m, Raise (A:=unit) e <> Raise (InputError m)
                      /\ Raise (A:=unit) e <> Raise (TemplateError m)))
  /\ (forall fmt, names (Msg fmt [AStr p; AStr k]) p
                  /\ names (Msg fmt [AStr p; AStr k]) k).
Proof.
  intros Hts Hkeys Hpre Hkw Hget Hpreds Heach Heval.
  assert (E : forall out,
             check_each py_eval
               (Locals input_dict (PDict a) t (sections_of (deref h a))
                       (keywords_of (deref h a)) tss k kw v) k h2 r2 (p :: ppost)
             = (h3, Raise out) ->
             check_predicates_node py_eval h input_dict (PDict a) t
             = (h3, Raise out)).
  { intros out Hout.
    change (Locals input_dict (PDict a) t (sections_of (deref h a))
              (keywords_of (deref h a)) tss k kw v)
      with (fun predicate r =>
              Locals input_dict (PDict a) t (sections_of (deref h a))
                (keywords_of (deref h a)) tss k kw v predicate r)
      in Heach, Hout.
    rewrite check_predicates_node_unfold.
    unfold check_predicates_body. unfold section_names in Hts. rewrite Hts.
    replace (check_keywords py_eval input_dict a t (sections_of (deref h a))
               (keywords_of (deref h a)) tss h None (keywords_of (deref h a)))
      with (check_keywords py_eval input_dict a t (sections_of (deref h a))
              (keywords_of (deref h a)) tss h None (pre ++ k :: post))
      by (by rewrite <- Hkeys).
    rewrite check_keywords_app, Hpre.
    cbn [check_keywords]. rewrite Hkw, Hget, Hpreds.
    rewrite check_each_app, Heach, Hout. reflexivity. }
  split; [|split; [|split]].
  - intros r -> Hfalse. apply E. cbn [check_each]. rewrite Heval, Hfalse.
    reflexivity.
  - intros ->. apply E. cbn [check_each]. rewrite Heval. reflexivity.
  - intros e -> Hne. split.
    + apply E. cbn [check_each]. rewrite Heval. by destruct e.
    + intros Hi Ht m. split; intros [= ->]; [by eapply Hi|by eapply Ht].
  - intros fmt. unfold names. cbn [msg_args]. split; [by left|right; by left].
Qed.
End PredicateFacts.

Lemma failing_predicate_outcomes_witness :
  check_predicates_node three_texts_eval minus_one_input (PDict []) (PDict [])
    positive_template
  = (minus_one_input,
     Raise (InputError (Msg "predicate {} failed in keyword {}"
                            [AStr "value > 0"; AStr "n"]))).
Proof.
  refine (proj1 (failing_predicate_outcomes three_texts_eval minus_one_input
                   (PDict []) [] positive_template [] [] [] "n" positive_keyword
                   (PScalar (SInt (-1))) [] [] "value > 0"
                   minus_one_input minus_one_input minus_one_input None None
                   (Evaluated (PScalar (SBool false)))
                   _ _ _ _ _ _ _ _) (PScalar (SBool false)) _ _);
    reflexivity.
Defined.

(** ** C4: running validate_node again *)

(** C4 (counterexample).  On the input [{}] the first call stores the
    default [1] unchecked and succeeds; the second call checks it against
    [float] and raises. *)
Lemma validate_node_rejects_its_own_output :
  validate_node {[ [] := [] ]} (PDict []) threshold_template
  = ({[ [] := [("threshold", PScalar (SInt 1))] ]}, Ok (PDict []))
  /\ validate_node {[ [] := [("threshold", PScalar (SInt 1))] ]} (PDict [])
       threshold_template
     = ({[ [] := [("threshold", PScalar (SInt 1))] ]},
        Raise (incorrect_type "threshold" "float"))
  /\ ~ idempotent_at {[ [] := [] ]} [] threshold_template.
Proof.
  assert (E1 : validate_node {[ [] := [] ]} (PDict []) threshold_template
               = ({[ [] := [("threshold", PScalar (SInt 1))] ]}, Ok (PDict [])))
    by (vm_compute; reflexivity).
  assert (E2 : validate_node {[ [] := [("threshold", PScalar (SInt 1))] ]}
                 (PDict []) threshold_template
               = ({[ [] := [("threshold", PScalar (SInt 1))] ]},
                  Raise (incorrect_type "threshold" "float")))
    by (vm_compute; reflexivity).
  split; [exact E1|]. split; [exact E2|].
  intros H. specialize (H _ _ E1). rewrite E2 in H. discriminate H.
Qed.

Lemma store_same (h : heap) (a : loc) (k : string) (v : pyval) :
  dict_get (deref h a) k = Some v -> store h a k v = h.
Proof.
  unfold store, deref. destruct (h !! a) as [d|] eqn:E; cbn; [|done].
  intros H. rewrite dict_set_same by done. by apply insert_id.
Qed.

Lemma first_named_map {X Y : Type} (key : string) (field : X -> option string)
  (g : X -> Y) (name : string) (xs : list X) :
  first_named key fst name (map (fun x => (field x, g x)) xs)
  = match first_named key field name xs with
    | Ok x => Ok (field x, g x)
    | Raise e => Raise e
    end.
Proof.
  induction xs as [|x xs IH]; [reflexivity|]. cbn [map first_named fst].
  destruct (field x) as [n|] eqn:E; [|reflexivity]. rewrite IH.
  destruct (first_named key field name xs) as [y|[]];
    destruct (String.eqb n name); rewrite ?E; reflexivity.
Qed.

Lemma first_named_recurse (t : template) (l : list template) (s : string) :
  t_sections t = Some l ->
  first_named "section" fst s (recurse_of t)
  = match first_named "section" t_section s l with
    | Ok x => Ok (t_section x, fun h v => validate_node h v x)
    | Raise e => Raise e
    end.
Proof. intros E. unfold recurse_of. rewrite E. apply first_named_map. Qed.

(** A settled node goes through [validate_node] unchanged. *)
Lemma descend_settled
  (recurse : list (option string * (heap -> pyval -> heap * result pyval)))
  (h : heap) (a : loc) (todo : list string) :
  (forall s, s ∈ todo ->
     exists nf input,
       dict_get (deref h a) s = Some input
       /\ first_named "section" fst s recurse = Ok nf
       /\ snd nf h input = (h, Ok input)) ->
  descend recurse h a todo = (h, Ok tt).
Proof.
  induction todo as [|s todo IH]; intros H; [reflexivity|]. cbn [descend].
  destruct (H s) as (nf & input & Hget & Hnf & Hcall); [left|].
  rewrite Hget, Hnf, Hcall, store_same by done.
  apply IH. intros s' Hs'. apply H. by right.
Qed.

Lemma settled_validate (t : template) :
  forall h a, settled h a t -> validate_node h (PDict a) t = (h, Ok (PDict a)).
Proof.
  induction t as [s k|s k l IH] using template_induction; intros h a Hs;
    inversion Hs as [a' t' kws tks tss Hk Htk Hts Hdoc E1 E2 E3 Hv E4 Hsec]; subst.
  all: rewrite (validate_node_checks _ _ _ kws tks tss) by done.
  all: rewrite !bool_decide_eq_false_2 by (by intros ?).
  all: rewrite Hv, E4, elements_empty; cbn [fill_defaults].
  - cbn in Hts. injection Hts as <-. reflexivity.
  - rewrite descend_settled; [reflexivity|].
    intros s' Hs'. destruct (Hsec s' Hs') as (l' & x & [= <-] & Hx & Hget & Hsx).
    eexists _, _. split; [exact Hget|].
    rewrite (first_named_recurse _ l) by done. rewrite Hx.
    split; [reflexivity|]. cbn [snd].
    apply first_named_elem in Hx as [Hin _].
    rewrite Forall_forall in IH. by apply IH.
Qed.

(** Whether a node is settled depends only on the objects at and below
    it. *)
Lemma settled_local (t : template) :
  forall h1 h2 a,
    settled h1 a t ->
    (forall q, a `prefix_of` q -> deref h2 q = deref h1 q) ->
    settled h2 a t.
Proof.
  induction t as [s k|s k l IH] using template_induction; intros h1 h2 a Hs Hsame;
    inversion Hs as [a' t' kws tks tss Hk Htk Hts Hdoc E1 E2 E3 Hv E4 Hsec]; subst.
  all: assert (Ha : deref h2 a = deref h1 a) by (by apply Hsame).
  all: apply (settled_node h2 a _ kws tks tss); rewrite ?Ha; try done.
  - cbn in Hts. injection Hts as <-. intros s' Hs'. by apply elem_of_nil in Hs'.
  - intros s' Hs'. destruct (Hsec s' Hs') as (l' & x & [= <-] & Hx & Hget & Hsx).
    exists l, x. repeat split; try done.
    pose proof (first_named_elem _ _ _ _ _ Hx) as [Hin _].
    rewrite Forall_forall in IH. apply (IH x Hin h1); [done|].
    intros q Hq. apply Hsame. etrans; [|exact Hq]. by apply prefix_app_r.
Qed.

(** *** Keys of a dictionary without repeated keys *)

Lemma dict_set_NoDup {V : Type} (d : list (string * V)) (k : string) (v : V) :
  NoDup (dict_keys d) -> NoDup (dict_keys (dict_set d k v)).
Proof.
  unfold dict_keys. induction d as [|[k0 v0] d IH]; cbn.
  - intros _. apply NoDup_singleton.
  - rewrite NoDup_cons. intros [Hnotin Hnd].
    destruct (String.eqb k0 k) eqn:E; cbn; rewrite NoDup_cons.
    + done.
    + split; [|by apply IH].
      apply String.eqb_neq in E. intros Hin.
      apply (dict_keys_set d k v k0) in Hin as [->|Hin]; done.
Qed.

Lemma dict_get_elem_iff {V : Type} (d : list (string * V)) (k : string) (v : V) :
  NoDup (dict_keys d) -> (k, v) ∈ d <-> dict_get d k = Some v.
Proof.
  intros Hnd. split; [|apply dict_get_elem].
  unfold dict_keys in Hnd. induction d as [|[k0 v0] d IH]; cbn in *.
  - by intros ?%elem_of_nil.
  - apply NoDup_cons in Hnd as [Hnotin Hnd].
    intros [[= -> ->]|Hin]%elem_of_cons.
    + by rewrite String.eqb_refl.
    + destruct (String.eqb k0 k) eqn:E; [|by apply IH].
      apply String.eqb_eq in E. subst k0. destruct Hnotin.
      apply elem_of_map. by exists (k, v).
Qed.

Lemma sections_of_iff (d : list (string * pyval)) (k : string) :
  NoDup (dict_keys d) ->
  k ∈ sections_of d <-> exists v, dict_get d k = Some v /\ is_dict v = true.
Proof.
  intros Hnd. unfold sections_of. rewrite elem_of_map. split.
  - intros ([k' v] & -> & [Hd Hin]%list_elem_of_filter). exists v.
    split; [by apply dict_get_elem_iff|]. cbn in Hd. by destruct (is_dict v).
  - intros (v & Hget & Hd). exists (k, v). split; [done|].
    apply list_elem_of_filter. split; [cbn; by rewrite Hd|].
    by apply dict_get_elem_iff.
Qed.

Lemma keywords_of_iff (d : list (string * pyval)) (k : string) :
  NoDup (dict_keys d) ->
  k ∈ keywords_of d <-> exists v, dict_get d k = Some v /\ is_dict v = false.
Proof.
  intros Hnd. unfold keywords_of. rewrite list_elem_of_filter.
  rewrite <- dict_get_is_Some. split.
  - intros [Hno [v Hget]]. exists v. split; [done|].
    destruct (is_dict v) eqn:E; [|done].
    assert (Hin : k ∈ sections_of d) by (apply sections_of_iff; eauto).
    apply existsb_eqb_elem in Hin. rewrite Hin in Hno. done.
  - intros (v & Hget & Hd). split; [|eauto].
    destruct (existsb (String.eqb k) (sections_of d)) eqn:E; [|done].
    apply existsb_eqb_elem, sections_of_iff in E as (v' & Hget' & Hd'); [|done].
    congruence.
Qed.

Lemma difference_empty_iff (A B : list string) :
  list_to_set A ∖ list_to_set B =@{gset string} ∅ <-> forall x, x ∈ A -> x ∈ B.
Proof.
  split.
  - intros H x Hx. destruct (decide (x ∈ B)) as [|Hn]; [done|].
    assert (Hin : x ∈@{gset string} ∅); [|by apply not_elem_of_empty in Hin].
    rewrite <- H. apply elem_of_difference. by rewrite !elem_of_list_to_set.
  - intros H. apply set_eq. intros x.
    rewrite elem_of_difference, !elem_of_list_to_set. split.
    + intros [Hx Hn]. destruct Hn. by apply H.
    + by intros ?%not_elem_of_empty.
Qed.

Lemma type_matches_not_dict (q : loc) (ty : string) :
  Validate.type_matches (PDict q) ty <> Ok true.
Proof.
  destruct (validate_type_matches_cases (PDict q) ty) as [[_ E]|[Hin _]];
    [by rewrite E|].
  unfold Validate.allowed_types, Validate.allowed_list_types,
    Validate.allowed_basic_types in Hin. cbn in Hin.
  rewrite !elem_of_cons, elem_of_nil in Hin.
  repeat (destruct Hin as [->|Hin]; [done|]). done.
Qed.

Lemma type_matches_is_dict (v : pyval) (ty : string) :
  Validate.type_matches v ty = Ok true -> is_dict v = false.
Proof.
  destruct v as [s|l|q]; try done. intros H. by apply type_matches_not_dict in H.
Qed.

(** *** Paths *)

Lemma prefix_snoc_not_self (a : loc) (s : string) : ~ (a ++ [s]) `prefix_of` a.
Proof.
  intros [rest E]. apply (f_equal length) in E.
  rewrite !length_app in E. cbn in E. lia.
Qed.

Lemma prefix_snoc_other (a q : loc) (s s' : string) :
  (a ++ [s]) `prefix_of` q -> s <> s' -> ~ (a ++ [s']) `prefix_of` q.
Proof.
  intros [r1 ->] Hne [r2 E]. rewrite <- !app_assoc in E.
  apply app_inv_head in E. cbn in E. congruence.
Qed.

Lemma prefix_snoc_below (a q : loc) (s : string) :
  (a ++ [s]) `prefix_of` q -> a `prefix_of` q.
Proof. intros H. etrans; [|exact H]. by apply prefix_app_r. Qed.

(** *** The two loops over keywords *)

Lemma verify_types_ok_iff (t : template) (d : list (string * pyval))
  (ks : list string) :
  verify_types t d ks = Ok tt <-> Forall (keyword_checks t d) ks.
Proof.
  induction ks as [|k ks IH]; cbn [verify_types].
  - split; [constructor|done].
  - rewrite Forall_cons, <- IH. unfold keyword_checks, keywords_entry. split.
    + destruct (t_keywords t) as [kws|]; [|done]. cbn [bind].
      destruct (first_named _ _ _ _) as [kw|] eqn:Ekw; [|done]. cbn [bind].
      destruct (kw_type kw) as [ty|] eqn:Ety; [|done].
      destruct (dict_get d k) as [v|] eqn:Eget; [|done].
      destruct (Validate.type_matches v ty) as [[]|] eqn:Em; cbn [bind]; [|done|done].
      intros H. split; [|done]. by exists kws, kw, ty, v.
    + intros [(kws & kw & ty & v & -> & Hkw & Hty & Hget & Hm) H].
      cbn [bind]. rewrite Hkw. cbn [bind]. by rewrite Hty, Hget, Hm.
Qed.

(** What the loop that fills the defaults leaves behind. *)
Lemma fill_defaults_ok (t : template) (a : loc) (missing : list string)
  (h h1 : heap) :
  fill_defaults t h a missing = (h1, Ok tt) ->
  (forall q, q <> a -> deref h1 q = deref h q)
  /\ (forall k, k ∉ missing -> dict_get (deref h1 a) k = dict_get (deref h a) k)
  /\ (forall k, k ∈ missing ->
        exists kws kw dflt,
          t_keywords t = Some kws
          /\ first_named "keyword" kw_keyword k kws = Ok kw
          /\ kw_default kw = Some dflt
          /\ dict_get (deref h1 a) k = Some dflt)
  /\ (NoDup (dict_keys (deref h a)) -> NoDup (dict_keys (deref h1 a))).
Proof.
  revert h. induction missing as [|k0 missing IH]; intros h; cbn [fill_defaults].
  - intros [= <-]. repeat split; try done. by intros k ?%elem_of_nil.
  - unfold keywords_entry.
    destruct (t_keywords t) as [kws|] eqn:Ek; [|done]. cbn [bind].
    destruct (first_named _ _ _ _) as [kw|] eqn:Ekw; [|done].
    destruct (kw_default kw) as [dflt|] eqn:Ed; [|done].
    intros H. apply IH in H as (Hother & Hkeep & Hset & Hnd).
    split; [|split; [|split]].
    + intros q Hq. rewrite Hother by done. by apply deref_store_ne.
    + intros k [Hne Hk]%not_elem_of_cons. rewrite Hkeep by done.
      rewrite deref_store_eq. by apply dict_get_set_ne.
    + intros k Hk. destruct (decide (k ∈ missing)) as [Hin|Hnotin].
      * destruct (Hset k Hin) as (kws' & kw' & dflt' & [= <-] & ? & ? & ?).
        by exists kws, kw', dflt'.
      * apply elem_of_cons in Hk as [->|Hk]; [|done].
        exists kws, kw, dflt. repeat split; try done.
        rewrite Hkeep by done. rewrite deref_store_eq. apply dict_get_set_eq.
    + intros Hh. apply Hnd. rewrite deref_store_eq. by apply dict_set_NoDup.
Qed.

(** *** A successful call settles the tree *)

Lemma descend_settles (t : template) (a : loc) :
  (forall l, t_sections t = Some l ->
             Forall (fun x => defaults_match x = true -> settles x) l
             /\ forallb defaults_match l = true) ->
  forall todo hc h',
    well_formed hc ->
    descend (recurse_of t) hc a todo = (h', Ok tt) ->
    well_formed h'
    /\ (forall q, (forall s, s ∈ todo -> ~ (a ++ [s]) `prefix_of` q) ->
                  deref h' q = deref hc q)
    /\ (forall s, s ∈ todo ->
          exists l x,
            t_sections t = Some l
            /\ first_named "section" t_section s l = Ok x
            /\ dict_get (deref h' a) s = Some (PDict (a ++ [s]))
            /\ settled h' (a ++ [s]) x).
Proof.
  intros Hsub. induction todo as [|s todo IH]; intros hc h' Hwf; cbn [descend].
  - intros [= <-]. split; [done|]. split; [done|]. by intros s ?%elem_of_nil.
  - destruct (dict_get (deref hc a) s) as [input|] eqn:Eget; [|done].
    destruct (t_sections t) as [l|] eqn:El;
      [|unfold recurse_of; rewrite El; done].
    rewrite (first_named_recurse t l) by done.
    destruct (first_named "section" t_section s l) as [x|] eqn:Ex; [|done].
    cbn [snd].
    destruct (validate_node hc input x) as [hc' [validated|]] eqn:Ecall; [|done].
    pose proof (validate_node_ok_inv _ _ _ _ _ Ecall)
      as (b & _ & _ & _ & _ & -> & -> & _).
    assert (b = a ++ [s]) as -> by (destruct Hwf as [_ Htree]; by eapply Htree).
    destruct (Hsub l eq_refl) as [Hall Hdm].
    pose proof (first_named_elem _ _ _ _ _ Ex) as [Hin _].
    rewrite Forall_forall in Hall. rewrite forallb_forall in Hdm.
    destruct (Hall x Hin (Hdm x (proj1 (list_elem_of_In _ _) Hin)) _ _ _ _ Hwf Ecall)
      as (Hsx & Hwf' & Hframe).
    assert (Ha : deref hc' a = deref hc a)
      by (apply Hframe, prefix_snoc_not_self).
    rewrite store_same by (by rewrite Ha).
    intros H. apply IH in H as (Hwf'' & Hframe' & Hrest); [|done].
    split; [done|]. split.
    + intros q Hq. rewrite Hframe'; [apply Hframe|].
      * apply Hq. left.
      * intros s' Hs'. apply Hq. by right.
    + intros s' Hs'. destruct (decide (s' ∈ todo)) as [Hin'|Hnotin];
        [by apply Hrest|].
      apply elem_of_cons in Hs' as [->|Hs']; [|done].
      exists l, x. split; [done|]. split; [done|].
      assert (Ha' : deref h' a = deref hc' a).
      { apply Hframe'. intros s' _. apply prefix_snoc_not_self. }
      split; [by rewrite Ha', Ha|].
      apply (settled_local x hc'); [done|].
      intros q Hq. apply Hframe'. intros s' Hs'.
      apply (prefix_snoc_other a q s s'); [done|]. by intros ->.
Qed.

Lemma defaults_match_keywords (t : template) (kws : list keyword_spec)
  (kw : keyword_spec) :
  defaults_match t = true -> t_keywords t = Some kws -> kw ∈ kws ->
  default_matches kw = true.
Proof.
  destruct t as [s k ss]. cbn. intros [H _]%andb_true_iff [= ->] Hin.
  rewrite forallb_forall in H. by apply H, list_elem_of_In.
Qed.

Lemma defaults_match_sections (t : template) (l : list template) :
  defaults_match t = true -> t_sections t = Some l ->
  forallb defaults_match l = true.
Proof. destruct t as [s k ss]. cbn. by intros [_ H]%andb_true_iff [= ->]. Qed.

Lemma default_matches_inv (kw : keyword_spec) (dflt : pyval) :
  default_matches kw = true -> kw_default kw = Some dflt ->
  exists ty, kw_type kw = Some ty /\ Validate.type_matches dflt ty = Ok true.
Proof.
  unfold default_matches. intros H E. rewrite E in H.
  destruct (kw_type kw) as [ty|]; [|done]. exists ty. split; [done|].
  destruct (Validate.type_matches dflt ty) as [b|]; [by subst|done].
Qed.

Lemma settles_node (t : template) :
  (forall l, t_sections t = Some l ->
             Forall (fun x => defaults_match x = true -> settles x) l) ->
  defaults_match t = true -> settles t.
Proof.
  intros Hsub Hdm h a h' r [Hnd Htree] Hcall.
  apply validate_node_ok_inv in Hcall
    as (a' & kws & tks & tss & h1 & [= <-] & -> & Hk & Htk & Hts & Hdoc & E1 & E2
        & E3 & Hv & Hfill & Hdesc).
  apply fill_defaults_ok in Hfill as (Hother & Hkeep & Hset & Hnd1).
  pose proof (Hnd a) as Hnd0. specialize (Hnd1 Hnd0).
  set (d := deref h a) in *. set (d1 := deref h1 a) in *.
  rewrite difference_empty_iff in E1, E2, E3.
  apply verify_types_ok_iff in Hv. rewrite Forall_forall in Hv.
  assert (Hmissing : forall k,
             k ∈ elements (list_to_set tks ∖ list_to_set (keywords_of d)
                           : gset string)
             <-> k ∈ tks /\ k ∉ keywords_of d).
  { intros k. by rewrite elem_of_elements, elem_of_difference,
      !elem_of_list_to_set. }
  (* a default that was filled in: a keyword of [d1] that passes the check *)
  assert (F3 : forall k, k ∈ tks -> k ∉ keywords_of d ->
                 k ∈ keywords_of d1 /\ keyword_checks t d1 k
                 /\ forall v, dict_get d1 k = Some v -> is_dict v = false).
  { intros k Hk1 Hk2.
    destruct (Hset k) as (kws' & kw & dflt & Hk' & Hkw & Hd & Hget);
      [by apply Hmissing|].
    rewrite Hk in Hk'. injection Hk' as <-.
    pose proof (first_named_elem _ _ _ _ _ Hkw) as [Hin _].
    destruct (default_matches_inv kw dflt) as (ty & Hty & Hm);
      [by eapply defaults_match_keywords|done|].
    pose proof (type_matches_is_dict _ _ Hm) as Hnd'.
    split; [apply keywords_of_iff; eauto|].
    split; [by exists kws, kw, ty, dflt|].
    intros v. rewrite Hget. by intros [= <-]. }
  (* what was a keyword stays one, with its value *)
  assert (F1 : forall k, k ∈ keywords_of d ->
                 k ∈ keywords_of d1 /\ dict_get d1 k = dict_get d k).
  { intros k Hin. assert (Hg : dict_get d1 k = dict_get d k).
    { apply Hkeep. rewrite Hmissing. tauto. }
    split; [|done]. apply keywords_of_iff; [done|].
    apply keywords_of_iff in Hin; [|done]. by rewrite Hg. }
  (* a key that was not filled in holds what it held *)
  assert (F2 : forall k, ~ (k ∈ tks /\ k ∉ keywords_of d) ->
                 dict_get d1 k = dict_get d k).
  { intros k Hn. apply Hkeep. by rewrite Hmissing. }
  assert (Hwf1 : well_formed h1).
  { split.
    - intros p. destruct (decide (p = a)) as [->|Hne]; [done|].
      rewrite Hother by done. apply Hnd.
    - intros p k q Hget. destruct (decide (p = a)) as [->|Hne].
      + destruct (decide (k ∈ tks /\ k ∉ keywords_of d)) as [[Hk1 Hk2]|Hn].
        * destruct (F3 k Hk1 Hk2) as (_ & _ & Hnd'). by apply Hnd' in Hget.
        * fold d1 in Hget. rewrite F2 in Hget by done. by eapply Htree.
      + rewrite Hother in Hget by done. by eapply Htree. }
  destruct (descend_settles t a) with (todo := tss) (hc := h1) (h' := h')
    as (Hwf' & Hframe & Hsections); try done.
  { intros l Hl. split; [by apply Hsub|by eapply defaults_match_sections]. }
  assert (Ha : deref h' a = d1).
  { apply Hframe. intros s _. apply prefix_snoc_not_self. }
  split; [|split; [done|]].
  - apply (settled_node h' a t kws tks tss); rewrite ?Ha; try done.
    + apply difference_empty_iff. intros k Hin.
      destruct (decide (k ∈ tks)) as [|Hn]; [done|].
      apply E1. apply keywords_of_iff in Hin as (v & Hget & Hd); [|done].
      apply keywords_of_iff; [done|]. exists v. rewrite <- F2; [done|tauto].
    + apply difference_empty_iff. intros k Hin. apply E2.
      apply sections_of_iff in Hin as (v & Hget & Hd); [|done].
      apply sections_of_iff; [done|]. exists v. split; [|done].
      rewrite <- F2; [done|]. intros [Hk1 Hk2].
      destruct (F3 k Hk1 Hk2) as (_ & _ & Hnd'). apply Hnd' in Hget. congruence.
    + apply difference_empty_iff. intros k Hin. by apply F1, E3.
    + apply verify_types_ok_iff, Forall_forall. intros k Hin.
      destruct (decide (k ∈ keywords_of d)) as [Hold|Hnew].
      * destruct (Hv k Hold) as (kws' & kw & ty & v & ? & ? & ? & Hget & ?).
        exists kws', kw, ty, v. repeat split; try done.
        by rewrite (proj2 (F1 k Hold)).
      * destruct (decide (k ∈ tks)) as [Htks|Hn]; [by apply F3|].
        destruct Hnew. apply keywords_of_iff in Hin as (v & Hget & Hd); [|done].
        apply keywords_of_iff; [done|]. exists v. rewrite <- F2; [done|tauto].
    + apply difference_empty_iff. intros k Hin.
      destruct (decide (k ∈ keywords_of d)) as [Hold|Hnew];
        [by apply F1|by apply F3].
    + intros s Hs. destruct (Hsections s Hs) as (l & x & ? & ? & Hg & ?).
      exists l, x. by rewrite <- Ha.
  - intros q Hq. rewrite Hframe.
    + apply Hother. intros ->. by apply Hq.
    + intros s _ Hs. by apply Hq, (prefix_snoc_below a q s).
Qed.

Lemma validate_settles (t : template) : defaults_match t = true -> settles t.
Proof.
  induction t as [s k|s k l IH] using template_induction; apply settles_node.
  - by intros l [=].
  - by intros l' [= <-].
Qed.

(** C4 (amended).  The store is well formed and every default of the
    template matches its declared type.  If [validate_node] succeeds, then
    called again on what it returned it succeeds again, returns the same
    object and leaves the store as it is. *)
Theorem validate_node_idempotent (h : heap) (a : loc) (t : template)
  (h' : heap) (r : pyval) :
  well_formed h ->
  defaults_match t = true ->
  validate_node h (PDict a) t = (h', Ok r) ->
  validate_node h' r t = (h', Ok r).
Proof.
  intros Hwf Hdm Hcall.
  destruct (validate_settles t Hdm _ _ _ _ Hwf Hcall) as (Hs & _ & _).
  apply validate_node_ok_inv in Hcall as (a' & _ & _ & _ & _ & [= <-] & -> & _).
  by apply settled_validate.
Qed.

Lemma scf_input_well_formed : well_formed scf_input.
Proof.
  assert (H : forall p, deref scf_input p
                        = if decide (p = []) then [("scf", PDict ["scf"])] else []).
  { intros p. unfold deref, scf_input. destruct (decide (p = [])) as [->|Hne].
    - reflexivity.
    - rewrite lookup_insert_ne by done.
      destruct (decide (p = ["scf"])) as [->|Hne']; [reflexivity|].
      by rewrite lookup_singleton_ne. }
  split.
  - intros p. rewrite H. destruct (decide (p = [])); cbn.
    + apply NoDup_singleton.
    + apply NoDup_nil_2.
  - intros p k q. rewrite H.
    destruct (decide (p = [])) as [->|]; cbn [dict_get];
      [|intros E; discriminate E].
    destruct (String.eqb "scf" k) eqn:E; [|done].
    apply String.eqb_eq in E. subst k. by intros [= <-].
Qed.

Lemma validate_node_idempotent_witness :
  validate_node scf_input (PDict []) scf_template = (scf_merged, Ok (PDict []))
  /\ validate_node scf_merged (PDict []) scf_template = (scf_merged, Ok (PDict [])).
Proof.
  assert (E : validate_node scf_input (PDict []) scf_template
              = (scf_merged, Ok (PDict [])))
    by (vm_compute; reflexivity).
  split; [exact E|].
  exact (validate_node_idempotent scf_input [] scf_template scf_merged (PDict [])
           scf_input_well_formed eq_refl E).
Defined.

(** * Further properties *)

(** ** Tags and values *)

Lemma ten_tags_cases (t : string) :
  t ∈ Types.allowed_types ->
  t = "str" \/ t = "int" \/ t = "float" \/ t = "complex" \/ t = "bool"
  \/ t = "List[str]" \/ t = "List[int]" \/ t = "List[float]"
  \/ t = "List[complex]" \/ t = "List[bool]".
Proof.
  unfold Types.allowed_types, Types.allowed_list_types,
    Types.allowed_scalar_types. cbn.
  rewrite !elem_of_cons, elem_of_nil. tauto.
Qed.

Lemma types_type_matches_allowed (v : jval) (t : string) (b : bool) :
  Types.type_matches v t = Ok b -> t ∈ Types.allowed_types.
Proof.
  intros E. destruct (types_type_matches_cases v t) as [[_ E']|[H _]]; [|done].
  rewrite E' in E. discriminate E.
Qed.

(** X1.  A value matches at most one tag; the only exception is the empty
    list, which matches each of the five list tags. *)
Theorem type_matches_at_most_one_tag (v : jval) (t1 t2 : string) :
  Types.type_matches v t1 = Ok true ->
  Types.type_matches v t2 = Ok true ->
  t1 = t2 \/ v = JList [].
Proof.
  intros E1 E2.
  pose proof (ten_tags_cases _ (types_type_matches_allowed _ _ _ E1)) as H1.
  pose proof (ten_tags_cases _ (types_type_matches_allowed _ _ _ E2)) as H2.
  destruct v as [s|[|x l]|d]; [| by right | |].
  - destruct s;
      repeat (destruct H1 as [->|H1]); subst; try discriminate E1;
      repeat (destruct H2 as [->|H2]); subst; try discriminate E2; by left.
  - destruct x as [s|l'|d'];
      [destruct s|..];
      repeat (destruct H1 as [->|H1]); subst; try discriminate E1;
      repeat (destruct H2 as [->|H2]); subst; try discriminate E2; by left.
  - repeat (destruct H1 as [->|H1]); subst; discriminate E1.
Qed.

Lemma type_matches_at_most_one_tag_witness :
  Types.type_matches (JList []) "List[int]" = Ok true
  /\ Types.type_matches (JList []) "List[str]" = Ok true
  /\ ("List[int]" = "List[str]" \/ JList [] = JList []).
Proof.
  split; [reflexivity|]. split; [reflexivity|].
  exact (type_matches_at_most_one_tag (JList []) "List[int]" "List[str]"
           eq_refl eq_refl).
Defined.

(** X2.  [None] and dictionaries match no tag, a bool is not an int and an
    int is not a float, whatever the tag a list holding a list or a
    dictionary matches none. *)
Theorem type_matches_never (t : string) (d : list (string * jval)) (b : bool)
  (z : Z) (x : jval) (l r : list jval) :
  Types.type_matches (JScalar SNone) t <> Ok true
  /\ Types.type_matches (JDict d) t <> Ok true
  /\ Types.type_matches (JScalar (SBool b)) "int" = Ok false
  /\ Types.type_matches (JScalar (SInt z)) "float" = Ok false
  /\ Types.type_matches (JScalar (SInt z)) "bool" = Ok false
  /\ (Types.type_name x = "list" \/ Types.type_name x = "dict"
      \/ Types.type_name x = "NoneType" ->
      Types.type_matches (JList (l ++ x :: r)) t <> Ok true).
Proof.
  assert (Hno : forall v, (forall s, v <> JScalar s) \/ v = JScalar SNone ->
                          (forall l', v <> JList l') ->
                          Types.type_matches v t <> Ok true).
  { intros v Hv Hl E.
    pose proof (ten_tags_cases _ (types_type_matches_allowed _ _ _ E)) as H.
    destruct v as [[]|l'|d']; try (by destruct (Hl l'));
      try (destruct Hv as [Hv|Hv]; [by edestruct Hv|discriminate Hv]);
      repeat (destruct H as [->|H]); subst; discriminate E. }
  split; [apply Hno; [by right|done]|].
  split; [apply Hno; [by left|done]|].
  split; [reflexivity|]. split; [reflexivity|]. split; [reflexivity|].
  intros Hx E.
  pose proof (ten_tags_cases _ (types_type_matches_allowed _ _ _ E)) as H.
  assert (Hall : forall T, forallb (fun y => Types._type_check_scalar y T)
                             (l ++ x :: r) = true ->
                           Types.type_name x = T).
  { intros T. rewrite forallb_app. cbn.
    intros [_ [Hx' _]%andb_true_iff]%andb_true_iff.
    by apply String.eqb_eq in Hx'. }
  repeat (destruct H as [->|H]); subst; try discriminate E;
    injection E as E; apply Hall in E; rewrite E in Hx;
    destruct Hx as [Hx|[Hx|Hx]]; discriminate Hx.
Qed.

(** X3.  The two implementations of [type_matches], in types.py and in
    validate.py, give the same answer and raise the same error. *)
Theorem type_matches_implementations_agree (v : pyval) (t : string) :
  Validate.type_matches v t = Types.type_matches (erase v) t.
Proof.
  assert (Hname : forall x, Validate.type_name x = Types.type_name (erase x))
    by (by intros [| |]).
  destruct (types_type_matches_cases (erase v) t) as [[Hn E]|[Hin _]].
  - rewrite E. by destruct (validate_type_matches_cases v t) as [[_ E']|[Hin' _]].
  - assert (Hlist : forall T items,
               forallb (fun e => String.eqb (Validate.type_name e) T) items
               = forallb (fun y => Types._type_check_scalar y T) (map erase items)).
    { intros T items. induction items as [|y items IH]; [done|]. cbn.
      by rewrite IH, Hname. }
    assert (Hscalar : forall T, T ∈ Types.allowed_scalar_types ->
               Validate.type_matches v T = Types.type_matches (erase v) T
               /\ Validate.type_matches v ("List[" +:+ T +:+ "]")
                  = Types.type_matches (erase v) ("List[" +:+ T +:+ "]")).
    { intros T HT. split.
      - rewrite validate_type_matches_scalar, types_type_matches_scalar by done.
        by rewrite Hname.
      - rewrite validate_type_matches_list, types_type_matches_list by done.
        destruct v as [s|items|a]; try reflexivity. cbn. by rewrite Hlist. }
    assert (Hs : forall T, In T Types.allowed_scalar_types ->
                           T ∈ Types.allowed_scalar_types)
      by (intros T HT; by apply list_elem_of_In).
    apply ten_tags_cases in Hin.
    repeat (destruct Hin as [->|Hin]); subst;
      first [ apply (Hscalar "str"), Hs; cbn; tauto
            | apply (Hscalar "int"), Hs; cbn; tauto
            | apply (Hscalar "float"), Hs; cbn; tauto
            | apply (Hscalar "complex"), Hs; cbn; tauto
            | apply (Hscalar "bool"), Hs; cbn; tauto ].
Qed.

(** ** The fixers of matching values *)

(** X4.  [type_fixers] has one entry for each recognized tag and no other,
    so that looking up the fixer of a tag [type_matches] has accepted never
    raises [KeyError]. *)
Theorem type_fixers_keys (t : string) :
  dict_keys Types.type_fixers
  = ["bool"; "complex"; "float"; "int"; "str"; "List[bool]"; "List[complex]";
     "List[float]"; "List[int]"; "List[str]"]
  /\ (t ∈ dict_keys Types.type_fixers <-> t ∈ Types.allowed_types)
  /\ (forall v b, Types.type_matches v t = Ok b ->
                  is_Some (dict_get Types.type_fixers t)).
Proof.
  assert (Hiff : t ∈ dict_keys Types.type_fixers <-> t ∈ Types.allowed_types).
  { change (dict_keys Types.type_fixers)
      with ["bool"; "complex"; "float"; "int"; "str"; "List[bool]";
            "List[complex]"; "List[float]"; "List[int]"; "List[str]"].
    unfold Types.allowed_types, Types.allowed_list_types,
      Types.allowed_scalar_types. cbn.
    rewrite !elem_of_cons, !elem_of_nil. tauto. }
  split; [reflexivity|]. split; [exact Hiff|].
  intros v b E. apply dict_get_is_Some, Hiff.
  by eapply types_type_matches_allowed.
Qed.

Lemma scalar_of_type_name (x : jval) (T : string) :
  T ∈ Types.allowed_scalar_types -> Types.type_name x = T ->
  exists s, x = JScalar s /\ s <> SNone.
Proof.
  intros HT E. apply scalar_tag_cases in HT.
  destruct x as [s|l|d].
  - exists s. split; [done|]. intros ->. cbn in E. subst T.
    repeat (destruct HT as [HT|HT]; [discriminate HT|]). discriminate HT.
  - cbn in E. subst T.
    repeat (destruct HT as [HT|HT]; [discriminate HT|]). discriminate HT.
  - cbn in E. subst T.
    repeat (destruct HT as [HT|HT]; [discriminate HT|]). discriminate HT.
Qed.

(** X5.  For a scalar tag, the fixer applied to a value that matches the tag
    returns that value. *)
Theorem scalar_fixer_returns_its_argument (T : string) (v : jval) :
  T ∈ Types.allowed_scalar_types ->
  Types.type_matches v T = Ok true ->
  exists fixer,
    dict_get Types.type_fixers T = Some fixer /\ fixer v = Some (Ok v).
Proof.
  intros HT E. rewrite types_type_matches_scalar in E by done.
  injection E as E. apply String.eqb_eq in E.
  apply scalar_tag_cases in HT.
  destruct HT as [->|[->|[->|[->| ->]]]];
    (eexists; split; [reflexivity|]);
    destruct v as [[]|l|d]; try discriminate E; reflexivity.
Qed.

Lemma scalar_fixer_returns_its_argument_witness :
  exists fixer,
    dict_get Types.type_fixers "float" = Some fixer
    /\ fixer (JScalar (SFloat "1.5")) = Some (Ok (JScalar (SFloat "1.5"))).
Proof.
  apply (scalar_fixer_returns_its_argument "float" (JScalar (SFloat "1.5")));
    [|reflexivity].
  unfold Types.allowed_scalar_types. rewrite !elem_of_cons. tauto.
Defined.

Lemma list_map_str_scalars (T : string) (items : list jval) :
  T ∈ Types.allowed_scalar_types ->
  forallb (fun x => Types._type_check_scalar x T) items = true ->
  exists out,
    Types.list_map (Types.call_builtin Types.Bstr) items = Some (Ok out)
    /\ length out = length items
    /\ forallb (fun x => Types._type_check_scalar x "str") out = true
    /\ (T = "str" -> out = items).
Proof.
  intros HT. induction items as [|x items IH]; cbn [forallb].
  - intros _. exists []. by repeat split.
  - intros [Hx Hrest]%andb_true_iff.
    destruct (IH Hrest) as (out & Hout & Hlen & Hstr & Hsame).
    apply String.eqb_eq in Hx.
    destruct (scalar_of_type_name x T HT Hx) as (s & -> & Hs).
    cbn [Types.list_map]. destruct s; try done; cbn; rewrite Hout;
      (eexists; split; [reflexivity|]); cbn; rewrite Hlen, Hstr;
      (repeat split; [intros ->; try discriminate Hx; by rewrite Hsame]).
Qed.

(** X6.  Every [List[...]] entry of [type_fixers] maps [str] over its
    argument: applied to a list that matches [List[T]] it returns a list of
    the same length that matches [List[str]], and that is the argument itself
    when [T] is [str]. *)
Theorem list_fixer_returns_strings (T : string) (items : list jval) :
  T ∈ Types.allowed_scalar_types ->
  Types.type_matches (JList items) ("List[" +:+ T +:+ "]") = Ok true ->
  exists fixer out,
    dict_get Types.type_fixers ("List[" +:+ T +:+ "]") = Some fixer
    /\ fixer (JList items) = Some (Ok (JList out))
    /\ length out = length items
    /\ Types.type_matches (JList out) "List[str]" = Ok true
    /\ (T = "str" -> out = items).
Proof.
  intros HT E. rewrite types_type_matches_list in E by done.
  injection E as E. cbn in E.
  destruct (list_map_str_scalars T items HT E) as (out & Hout & Hlen & Hstr & Hsame).
  exists (Types.list_lambda (Types.Frame "str" Types.Bstr)), out.
  split; [by apply type_fixers_list_entries|].
  split; [unfold Types.list_lambda; cbn; by rewrite Hout|].
  split; [done|]. split; [|done].
  change (Ok (Types._type_check_list (JList out) "str") = Ok true).
  cbn. by rewrite Hstr.
Qed.

Lemma list_fixer_returns_strings_witness :
  exists fixer out,
    dict_get Types.type_fixers "List[bool]" = Some fixer
    /\ fixer (JList [JScalar (SBool true)]) = Some (Ok (JList out))
    /\ length out = 1
    /\ Types.type_matches (JList out) "List[str]" = Ok true.
Proof.
  destruct (list_fixer_returns_strings "bool" [JScalar (SBool true)])
    as (fixer & out & H1 & H2 & H3 & H4 & _);
    [|reflexivity|exists fixer, out; repeat split; done].
  unfold Types.allowed_scalar_types. rewrite !elem_of_cons. tauto.
Defined.

(** ** rec_typenade on whole trees *)

Lemma jval_induction (P : jval -> Prop) :
  (forall s, P (JScalar s)) ->
  (forall l, P (JList l)) ->
  (forall items, Forall (fun kv => P (snd kv)) items -> P (JDict items)) ->
  forall v, P v.
Proof.
  intros Hs Hl Hd. fix IH 1. intros [s|l|items]; [apply Hs|apply Hl|].
  apply Hd. induction items as [|[k v] items IHitems]; constructor;
    [apply IH|exact IHitems].
Qed.

Lemma dict_set_fresh {V : Type} (d : list (string * V)) (k : string) (v : V) :
  k ∉ dict_keys d -> dict_set d k v = d ++ [(k, v)].
Proof.
  unfold dict_keys. induction d as [|[k0 v0] d IH]; cbn; [done|].
  intros [Hne Hk]%not_elem_of_cons.
  destruct (String.eqb k0 k) eqn:E.
  - apply String.eqb_eq in E. by subst.
  - by rewrite IH.
Qed.

Lemma map_pair_id {A B : Type} (l : list (A * B)) :
  map (fun kv => (fst kv, snd kv)) l = l.
Proof. induction l as [|[a b] l IH]; [done|]. cbn. by rewrite IH. Qed.

Lemma list_map_str_of (T : string) (items : list jval) :
  T ∈ Types.allowed_scalar_types ->
  forallb (fun x => Types._type_check_scalar x T) items = true ->
  Types.list_map (Types.call_builtin Types.Bstr) items
  = Some (Ok (map str_of items)).
Proof.
  intros HT. induction items as [|x items IH]; cbn [forallb]; [done|].
  intros [Hx Hrest]%andb_true_iff. apply String.eqb_eq in Hx.
  destruct (scalar_of_type_name x T HT Hx) as (s & -> & Hs).
  cbn [Types.list_map map]. rewrite (IH Hrest).
  by destruct s.
Qed.

(** The fixer of a tag, applied to a value that matches the tag. *)
Lemma fixer_on_match (v : jval) (t : string) :
  Types.type_matches v t = Ok true ->
  exists fixer,
    dict_get Types.type_fixers t = Some fixer
    /\ fixer v = Some (Ok (stringify v)).
Proof.
  intros E.
  assert (Hs : forall T, T ∈ Types.allowed_scalar_types ->
             (Types.type_matches v T = Ok true ->
              exists fixer, dict_get Types.type_fixers T = Some fixer
                            /\ fixer v = Some (Ok (stringify v)))
             /\ (Types.type_matches v ("List[" +:+ T +:+ "]") = Ok true ->
                 exists fixer,
                   dict_get Types.type_fixers ("List[" +:+ T +:+ "]") = Some fixer
                   /\ fixer v = Some (Ok (stringify v)))).
  { intros T HT. split.
    - intros E'. rewrite types_type_matches_scalar in E' by done.
      injection E' as E'. apply String.eqb_eq in E'.
      pose proof (scalar_tag_cases T HT) as HT'.
      destruct HT' as [->|[->|[->|[->| ->]]]];
        (eexists; split; [reflexivity|]);
        destruct v as [[]|l|d]; try discriminate E'; reflexivity.
    - intros E'. rewrite types_type_matches_list in E' by done.
      injection E' as E'. destruct v as [s|items|d]; try discriminate E'.
      exists (Types.list_lambda (Types.Frame "str" Types.Bstr)).
      split; [by apply type_fixers_list_entries|].
      unfold Types.list_lambda. cbn. by rewrite (list_map_str_of T). }
  assert (Hin : forall T, In T Types.allowed_scalar_types ->
                          T ∈ Types.allowed_scalar_types)
    by (intros T HT; by apply list_elem_of_In).
  pose proof (ten_tags_cases _ (types_type_matches_allowed _ _ _ E)) as H.
  repeat (destruct H as [->|H]); subst;
    first [ apply (Hs "str"); [apply Hin; cbn; tauto|exact E]
          | apply (Hs "int"); [apply Hin; cbn; tauto|exact E]
          | apply (Hs "float"); [apply Hin; cbn; tauto|exact E]
          | apply (Hs "complex"); [apply Hin; cbn; tauto|exact E]
          | apply (Hs "bool"); [apply Hin; cbn; tauto|exact E] ].
Qed.

Lemma leaf_conforms_inv (types : jval) (k : string) (v : jval) :
  leaf_conforms types k v = true ->
  exists t,
    Types.subscript types k = Ok (JScalar (SStr t))
    /\ v <> JScalar SNone /\ Types.type_matches v t = Ok true.
Proof.
  unfold leaf_conforms.
  destruct (Types.subscript types k) as [[[]| |]|]; try done.
  intros [Hn Hm]%andb_true_iff. eexists. split; [reflexivity|]. split.
  - intros ->. discriminate Hn.
  - destruct (Types.type_matches v s) as [[]|]; done.
Qed.

Lemma check_keyword_conforming (types : jval) (fixate : bool)
  (address : list string) (k : string) (v : jval) :
  leaf_conforms types k v = true ->
  Types.check_keyword types fixate address k v
  = Some (Ok (if fixate then stringify v else v, [])).
Proof.
  intros (t & Hsub & Hnone & Hm)%leaf_conforms_inv.
  unfold Types.check_keyword. rewrite Hsub.
  unfold Types.type_matches_declared. rewrite Hm.
  destruct (fixer_on_match v t Hm) as (fixer & Hf & Hv). rewrite Hf, Hv.
  destruct v as [[]|l|d]; try done; by destruct fixate.
Qed.

Lemma check_keyword_no_errors (types : jval) (fixate : bool)
  (address : list string) (k : string) (v out : jval) :
  (forall d, v <> JDict d) ->
  Types.check_keyword types fixate address k v = Some (Ok (out, [])) ->
  leaf_conforms types k v = true.
Proof.
  intros Hleaf. unfold Types.check_keyword, leaf_conforms.
  destruct (Types.subscript types k) as [declared|]; [|done].
  destruct v as [s|l|d]; [| |by destruct (Hleaf d)].
  - destruct s; try done;
      destruct declared as [[]| |]; try done; cbn;
      destruct (Types.type_matches _ _) as [[]|]; done.
  - destruct declared as [[]| |]; try done; cbn;
      destruct (Types.type_matches _ _) as [[]|]; done.
Qed.

Lemma typenade_loop_cons_inv types fixate address k v rest outgoing errors out errs :
  typenade_loop types fixate address ((k, v) :: rest) outgoing errors
  = Some (Ok (out, errs)) ->
  exists out_k errs_k,
    typenade_loop types fixate address rest
      (dict_set outgoing k out_k) (errors ++ errs_k) = Some (Ok (out, errs))
    /\ match v with
       | JDict _ =>
           exists types_k,
             Types.subscript types k = Ok types_k
             /\ Types.rec_typenade v types_k fixate (address ++ [k])
                = Some (Ok (out_k, errs_k))
       | _ => Types.check_keyword types fixate address k v
              = Some (Ok (out_k, errs_k))
       end.
Proof.
  cbn [typenade_loop]. intros H. destruct v as [s|l|d].
  - destruct (Types.check_keyword _ _ _ _ _) as [[[out_k errs_k]|]|];
      try discriminate H. by exists out_k, errs_k.
  - destruct (Types.check_keyword _ _ _ _ _) as [[[out_k errs_k]|]|];
      try discriminate H. by exists out_k, errs_k.
  - destruct (Types.subscript types k) as [types_k|]; [|discriminate H].
    destruct (Types.rec_typenade _ _ _ _) as [[[out_k errs_k]|]|] eqn:Er;
      try discriminate H.
    exists out_k, errs_k. split; [exact H|]. exists types_k. by split.
Qed.

Lemma typenade_loop_errors_prefix types fixate address items outgoing errors
  out errs :
  typenade_loop types fixate address items outgoing errors = Some (Ok (out, errs)) ->
  exists more, errs = errors ++ more.
Proof.
  revert outgoing errors. induction items as [|[k v] rest IH]; intros outgoing errors.
  - intros [= <- <-]. exists []. by rewrite app_nil_r.
  - intros (out_k & errs_k & H & _)%typenade_loop_cons_inv.
    apply IH in H as [more ->]. exists (errs_k ++ more). by rewrite app_assoc.
Qed.

Lemma rec_typenade_conforming (incoming : jval) :
  forall types fixate address,
    conforms incoming types = true ->
    well_keyed incoming = true ->
    Types.rec_typenade incoming types fixate address
    = Some (Ok (if fixate then stringify incoming else incoming, [])).
Proof.
  induction incoming as [s|l|items IH] using jval_induction;
    intros types fixate address Hc Hk; try discriminate Hc.
  rewrite rec_typenade_dict. cbn [conforms well_keyed] in Hc, Hk.
  apply andb_true_iff in Hk as [Hnd Hk]. apply bool_decide_eq_true in Hnd.
  assert (Hloop : forall rest outgoing,
             NoDup (dict_keys rest) ->
             (forall k, k ∈ dict_keys rest -> k ∉ dict_keys outgoing) ->
             Forall (fun kv => forall types fixate address,
                         conforms (snd kv) types = true ->
                         well_keyed (snd kv) = true ->
                         Types.rec_typenade (snd kv) types fixate address
                         = Some (Ok (if fixate then stringify (snd kv)
                                     else snd kv, []))) rest ->
             forallb (fun kv =>
                        match snd kv with
                        | JDict _ =>
                            match Types.subscript types (fst kv) with
                            | Ok types_k => conforms (snd kv) types_k
                            | Raise _ => false
                            end
                        | v => leaf_conforms types (fst kv) v
                        end) rest = true ->
             forallb (fun kv => well_keyed (snd kv)) rest = true ->
             typenade_loop types fixate address rest outgoing []
             = Some (Ok (JDict (outgoing
                                ++ map (fun kv => (fst kv,
                                                   if fixate then stringify (snd kv)
                                                   else snd kv)) rest), []))).
  { induction rest as [|[k v] rest IHrest]; intros outgoing Hnd' Hfresh HIH Hc' Hk'.
    - cbn. by rewrite app_nil_r.
    - cbn in Hnd'. apply NoDup_cons in Hnd' as [Hnotin Hnd'].
      apply Forall_cons in HIH as [HIHv HIH].
      cbn [forallb fst snd] in Hc', Hk'.
      apply andb_true_iff in Hc' as [Hcv Hc'].
      apply andb_true_iff in Hk' as [Hkv Hk'].
      assert (Hstep : forall out_k,
                 typenade_loop types fixate address rest
                   (dict_set outgoing k out_k) ([] ++ [])
                 = Some (Ok (JDict (outgoing ++ (k, out_k)
                                    :: map (fun kv => (fst kv,
                                              if fixate then stringify (snd kv)
                                              else snd kv)) rest), []))).
      { intros out_k. rewrite dict_set_fresh by (apply Hfresh; left).
        cbn [app]. rewrite IHrest; try done.
        - by rewrite <- app_assoc.
        - intros k' Hk'' Hin. unfold dict_keys in Hin.
          rewrite map_app in Hin. cbn in Hin.
          apply elem_of_app in Hin as [Hin|Hin].
          + eapply Hfresh; [right; exact Hk''|exact Hin].
          + apply elem_of_cons in Hin as [->|Hin]; [done|by apply elem_of_nil in Hin]. }
      cbn [typenade_loop map fst snd].
      destruct v as [s|l|d].
      + rewrite check_keyword_conforming by done. apply Hstep.
      + rewrite check_keyword_conforming by done. apply Hstep.
      + destruct (Types.subscript types k) as [types_k|]; [|discriminate Hcv].
        cbn [snd] in HIHv. rewrite HIHv by done. apply Hstep. }
  rewrite Hloop; try done.
  - cbn [app]. destruct fixate; [reflexivity|]. by rewrite map_pair_id.
  - intros k _ Hin. by apply elem_of_nil in Hin.
Qed.

(** ** C3: one error from validate_node, every error from rec_typenade *)





Lemma stringify_lists_hold_strings (v : jval) :
  lists_hold_strings v = true -> stringify v = v.
Proof.
  induction v as [s|l|items IH] using jval_induction; cbn.
  - done.
  - intros H. f_equal. induction l as [|x l IHl]; [done|]. cbn in *.
    apply andb_true_iff in H as [Hx H]. rewrite IHl by done.
    by destruct x as [[]| |].
  - intros H. f_equal. induction items as [|[k v] items IHitems]; [done|].
    cbn in *. apply andb_true_iff in H as [Hv H].
    apply Forall_cons in IH as [IHv IH]. cbn in IHv.
    by rewrite IHv, IHitems.
Qed.

(** X7.  On a tree all of whose keywords conform to [types],
    [rec_typenade] records no error; without fixation it returns the tree
    as it is, with fixation it returns the tree with each list replaced by
    the list of the [str] of its elements, which is the tree itself when
    its lists hold strings only. *)
Theorem rec_typenade_on_conforming_tree (incoming types : jval)
  (address : list string) :
  conforms incoming types = true ->
  well_keyed incoming = true ->
  Types.rec_typenade incoming types false address = Some (Ok (incoming, []))
  /\ Types.rec_typenade incoming types true address
     = Some (Ok (stringify incoming, []))
  /\ (lists_hold_strings incoming = true -> stringify incoming = incoming).
Proof.
  intros Hc Hk. split; [by apply (rec_typenade_conforming incoming types false)|].
  split; [by apply (rec_typenade_conforming incoming types true)|].
  apply stringify_lists_hold_strings.
Qed.

Lemma rec_typenade_on_conforming_tree_witness :
  Types.rec_typenade
    (JDict [("scf", JDict [("thresholds", JList [JScalar (SFloat "0.1")])])])
    (JDict [("scf", JDict [("thresholds", JScalar (SStr "List[float]"))])])
    true []
  = Some (Ok (JDict [("scf", JDict [("thresholds", JList [JScalar (SStr "0.1")])])],
              [])).
Proof.
  refine (proj1 (proj2 (rec_typenade_on_conforming_tree
    (JDict [("scf", JDict [("thresholds", JList [JScalar (SFloat "0.1")])])])
    (JDict [("scf", JDict [("thresholds", JScalar (SStr "List[float]"))])])
    [] _ _))); reflexivity.
Defined.

Lemma rec_typenade_no_errors_conforms (incoming : jval) :
  forall types fixate address out,
    Types.rec_typenade incoming types fixate address = Some (Ok (out, [])) ->
    conforms incoming types = true.
Proof.
  induction incoming as [s|l|items IH] using jval_induction;
    intros types fixate address out H; try discriminate H.
  rewrite rec_typenade_dict in H. cbn [conforms].
  revert H. generalize (@nil (string * jval)).
  induction items as [|[k v] rest IHrest]; intros outgoing H; [done|].
  apply Forall_cons in IH as [IHv IH].
  apply typenade_loop_cons_inv in H as (out_k & errs_k & H & Hv).
  pose proof (typenade_loop_errors_prefix _ _ _ _ _ _ _ _ H) as [more Hmore].
  symmetry in Hmore. apply app_eq_nil in Hmore as [Hmore _].
  cbn [app] in Hmore. subst errs_k.
  cbn [forallb fst snd]. apply andb_true_iff. split; [|by eapply IHrest].
  destruct v as [s|l|d].
  - by eapply check_keyword_no_errors.
  - by eapply check_keyword_no_errors.
  - destruct Hv as (types_k & -> & Hrec). by eapply IHv.
Qed.

(** X8.  When [rec_typenade] returns, the list of errors is empty exactly
    when every keyword of the tree conforms to [types]. *)
Theorem rec_typenade_no_errors_iff_conforms (incoming types : jval)
  (fixate : bool) (address : list string) (out : jval)
  (errs : list Types.Error) :
  well_keyed incoming = true ->
  Types.rec_typenade incoming types fixate address = Some (Ok (out, errs)) ->
  errs = [] <-> conforms incoming types = true.
Proof.
  intros Hk H. split.
  - intros ->. by eapply rec_typenade_no_errors_conforms.
  - intros Hc. rewrite (rec_typenade_conforming incoming types fixate address)
      in H by done. by injection H as _ <-.
Qed.

Lemma rec_typenade_no_errors_iff_conforms_witness :
  [Types.no_value [] "title"] = []
  <-> conforms (JDict [("title", JScalar SNone)])
        (JDict [("title", JScalar (SStr "str"))]) = true.
Proof.
  apply (rec_typenade_no_errors_iff_conforms
           (JDict [("title", JScalar SNone)])
           (JDict [("title", JScalar (SStr "str"))]) true []
           (JDict [("title", JScalar SNone)])); reflexivity.
Defined.

Lemma check_keyword_outcomes (types : jval) (fixate : bool)
  (address : list string) (k : string) (v out : jval) (errs : list Types.Error) :
  Types.check_keyword types fixate address k v = Some (Ok (out, errs)) ->
  out = JScalar SNone \/ out = v \/ out = stringify v.
Proof.
  unfold Types.check_keyword.
  destruct (Types.subscript types k) as [declared|]; [|done].
  assert (H : match Types.type_matches_declared v declared with
              | Ok true =>
                  if fixate
                  then match declared with
                       | JScalar (SStr t) =>
                           match dict_get Types.type_fixers t with
                           | Some fixer =>
                               match fixer v with
                               | Some (Ok v') => Some (Ok (v', []))
                               | Some (Raise e) => Some (Raise e)
                               | None => None
                               end
                           | None => Some (Raise (KeyError t))
                           end
                       | _ => Some (Raise TypeError)
                       end
                  else Some (Ok (v, []))
              | Ok false =>
                  Some (Ok (JScalar SNone, [Types.mismatch address k v declared]))
              | Raise e => Some (Raise e)
              end = Some (Ok (out, errs)) ->
              out = JScalar SNone \/ out = v \/ out = stringify v).
  { unfold Types.type_matches_declared.
    destruct declared as [[]| |]; try done.
    destruct (Types.type_matches v s) as [[]|] eqn:Em; try done.
    - destruct fixate; [|intros [= <- <-]; tauto].
      destruct (fixer_on_match v s Em) as (fixer & -> & ->).
      intros [= <- <-]. tauto.
    - intros [= <- <-]. tauto. }
  destruct v as [[]|l|d]; try exact H. intros [= <- <-]. tauto.
Qed.

(** X9.  What [rec_typenade] returns has the keys of its argument, in the
    same order and at every depth, with dictionaries where the argument has
    dictionaries: no key is added, dropped or renamed. *)
Theorem rec_typenade_keeps_the_shape (incoming types : jval) (fixate : bool)
  (address : list string) (out : jval) (errs : list Types.Error) :
  well_keyed incoming = true ->
  Types.rec_typenade incoming types fixate address = Some (Ok (out, errs)) ->
  same_shape incoming out.
Proof.
  intros Hk H. revert types fixate address out errs H Hk.
  induction incoming as [s|l|items IH] using jval_induction;
    intros types fixate address out errs H Hk; try discriminate H.
  rewrite rec_typenade_dict in H. cbn [well_keyed] in Hk.
  apply andb_true_iff in Hk as [Hnd Hk]. apply bool_decide_eq_true in Hnd.
  assert (Hloop : forall rest outgoing errors,
             NoDup (dict_keys rest) ->
             (forall k, k ∈ dict_keys rest -> k ∉ dict_keys outgoing) ->
             Forall (fun kv => forall types fixate address out errs,
                         Types.rec_typenade (snd kv) types fixate address
                         = Some (Ok (out, errs)) ->
                         well_keyed (snd kv) = true ->
                         same_shape (snd kv) out) rest ->
             forallb (fun kv => well_keyed (snd kv)) rest = true ->
             typenade_loop types fixate address rest outgoing errors
             = Some (Ok (out, errs)) ->
             exists tail,
               out = JDict (outgoing ++ tail)
               /\ same_shape (JDict rest) (JDict tail)).
  { clear H. induction rest as [|[k v] rest IHrest];
      intros outgoing errors Hnd' Hfresh HIH Hk' H.
    - injection H as <- <-. exists []. by rewrite app_nil_r.
    - cbn in Hnd'. apply NoDup_cons in Hnd' as [Hnotin Hnd'].
      apply Forall_cons in HIH as [HIHv HIH].
      cbn [forallb snd] in Hk'. apply andb_true_iff in Hk' as [Hkv Hk'].
      apply typenade_loop_cons_inv in H as (out_k & errs_k & H & Hv).
      rewrite dict_set_fresh in H by (apply Hfresh; left).
      apply IHrest in H as (tail & -> & Hshape); try done.
      + exists ((k, out_k) :: tail). split; [by rewrite <- app_assoc|].
        cbn. split; [done|]. split; [|exact Hshape].
        destruct v as [s|l|d].
        * apply check_keyword_outcomes in Hv as [->|[->| ->]]; done.
        * apply check_keyword_outcomes in Hv as [->|[->| ->]]; done.
        * destruct Hv as (types_k & _ & Hrec). by eapply HIHv.
      + intros k' Hk'' Hin. unfold dict_keys in Hin.
        rewrite map_app in Hin. cbn in Hin.
        apply elem_of_app in Hin as [Hin|Hin].
        * eapply Hfresh; [right; exact Hk''|exact Hin].
        * apply list_elem_of_singleton in Hin. by subst. }
  apply Hloop in H as (tail & -> & Hshape); try done.
  intros k _ Hin. by apply elem_of_nil in Hin.
Qed.

Lemma rec_typenade_keeps_the_shape_witness :
  same_shape (JDict [("n", JScalar (SStr "5")); ("scf", JDict [])])
             (JDict [("n", JScalar SNone); ("scf", JDict [])]).
Proof.
  apply (rec_typenade_keeps_the_shape
           (JDict [("n", JScalar (SStr "5")); ("scf", JDict [])])
           (JDict [("n", JScalar (SStr "int")); ("scf", JDict [])]) true []
           (JDict [("n", JScalar SNone); ("scf", JDict [])])
           [Types.mismatch [] "n" (JScalar (SStr "5")) (JScalar (SStr "int"))]);
    reflexivity.
Defined.

Lemma check_keyword_same_errors (types : jval) (address : list string)
  (k : string) (v : jval) :
  same_errors (Types.check_keyword types true address k v)
              (Types.check_keyword types false address k v).
Proof.
  unfold Types.check_keyword.
  destruct (Types.subscript types k) as [declared|]; [|done].
  assert (H : same_errors
                match Types.type_matches_declared v declared with
                | Ok true =>
                    match declared with
                    | JScalar (SStr t) =>
                        match dict_get Types.type_fixers t with
                        | Some fixer =>
                            match fixer v with
                            | Some (Ok v') => Some (Ok (v', []))
                            | Some (Raise e) => Some (Raise e)
                            | None => None
                            end
                        | None => Some (Raise (KeyError t))
                        end
                    | _ => Some (Raise TypeError)
                    end
                | Ok false =>
                    Some (Ok (JScalar SNone, [Types.mismatch address k v declared]))
                | Raise e => Some (Raise e)
                end
                match Types.type_matches_declared v declared with
                | Ok true => Some (Ok (v, []))
                | Ok false =>
                    Some (Ok (JScalar SNone, [Types.mismatch address k v declared]))
                | Raise e => Some (Raise e)
                end).
  { unfold Types.type_matches_declared.
    destruct declared as [[]| |]; try done.
    destruct (Types.type_matches v s) as [[]|] eqn:Em; try done.
    by destruct (fixer_on_match v s Em) as (fixer & -> & ->). }
  destruct v as [[]|l|d]; try exact H. done.
Qed.

(** With fixation too, every value is covered: the call returns or
    raises. *)
Lemma rec_typenade_total (incoming : jval) :
  forall types address,
    Types.rec_typenade incoming types true address <> None.
Proof.
  induction incoming as [s|l|items IH] using jval_induction;
    intros types address; try done.
  rewrite rec_typenade_dict.
  generalize (@nil (string * jval)) (@nil Types.Error).
  induction items as [|[k v] rest IHrest]; intros outgoing errors; [done|].
  apply Forall_cons in IH as [IHv IH]. cbn [snd] in IHv.
  assert (Hleaf : match Types.check_keyword types true address k v with
                  | Some (Ok (out, errs)) =>
                      typenade_loop types true address rest
                        (dict_set outgoing k out) (errors ++ errs)
                  | other => other
                  end <> None).
  { pose proof (check_keyword_same_errors types address k v) as H.
    destruct (Types.check_keyword types true address k v) as [[[out1 e1]|x1]|];
      [by apply IHrest|done|done]. }
  cbn [typenade_loop]. destruct v as [s|l|d]; [exact Hleaf|exact Hleaf|].
  destruct (Types.subscript types k) as [types_k|]; [|done].
  specialize (IHv types_k (address ++ [k])).
  destruct (Types.rec_typenade (JDict d) types_k true (address ++ [k]))
    as [[[out1 e1]|x1]|]; [by apply IHrest|done|done].
Qed.

(** X10.  Fixation changes values only: with and without it
    [rec_typenade] records the same errors in the same order, or raises the
    same exception; in particular no type fixer ever raises on a value that
    has passed [type_matches]. *)
Theorem rec_typenade_fixate_keeps_errors (incoming types : jval)
  (address : list string) :
  same_errors (Types.rec_typenade incoming types true address)
              (Types.rec_typenade incoming types false address).
Proof.
  revert types address.
  induction incoming as [s|l|items IH] using jval_induction;
    intros types address; try done.
  rewrite !rec_typenade_dict.
  generalize (@nil (string * jval)) at 1.
  generalize (@nil (string * jval)). generalize (@nil Types.Error).
  induction items as [|[k v] rest IHrest]; intros errors o2 o1; [done|].
  apply Forall_cons in IH as [IHv IH]. cbn [snd] in IHv.
  assert (Hleaf : (forall d, v <> JDict d) ->
            same_errors
              match Types.check_keyword types true address k v with
              | Some (Ok (out, errs)) =>
                  typenade_loop types true address rest
                    (dict_set o1 k out) (errors ++ errs)
              | other => other
              end
              match Types.check_keyword types false address k v with
              | Some (Ok (out, errs)) =>
                  typenade_loop types false address rest
                    (dict_set o2 k out) (errors ++ errs)
              | other => other
              end).
  { intros _. pose proof (check_keyword_same_errors types address k v) as H.
    destruct (Types.check_keyword types true address k v) as [[[out1 e1]|x1]|];
      destruct (Types.check_keyword types false address k v) as [[[out2 e2]|x2]|];
      try done.
    cbn in H. subst e2. by apply IHrest. }
  cbn [typenade_loop]. destruct v as [s|l|d]; [by apply Hleaf|by apply Hleaf|].
  destruct (Types.subscript types k) as [types_k|]; [|done].
  specialize (IHv types_k (address ++ [k])).
  destruct (Types.rec_typenade (JDict d) types_k true (address ++ [k]))
    as [[[out1 e1]|x1]|];
    destruct (Types.rec_typenade (JDict d) types_k false (address ++ [k]))
      as [[[out2 e2]|x2]|]; try done.
  cbn in IHv. subst e2. by apply IHrest.
Qed.

(** X11.  [rec_typenade] returns only when [types] has an entry for every
    key of the input dictionary: a keyword or section that [types] does not
    declare makes it raise, it is never recorded as an error. *)
Theorem rec_typenade_returns_on_declared_keys (items : list (string * jval))
  (types : jval) (fixate : bool) (address : list string) (out : jval)
  (errs : list Types.Error) (k : string) :
  Types.rec_typenade (JDict items) types fixate address = Some (Ok (out, errs)) ->
  k ∈ dict_keys items ->
  exists t, Types.subscript types k = Ok t.
Proof.
  intros H. rewrite rec_typenade_dict in H. revert H k.
  generalize (@nil (string * jval)) (@nil Types.Error).
  induction items as [|[k v] rest IH]; intros outgoing errors H k' Hk'.
  - by apply elem_of_nil in Hk'.
  - apply typenade_loop_cons_inv in H as (out_k & errs_k & H & Hv).
    cbn in Hk'. apply elem_of_cons in Hk' as [->|Hk']; [|by eapply IH].
    assert (Hleaf : Types.check_keyword types fixate address k v
                    = Some (Ok (out_k, errs_k)) ->
                    exists t, Types.subscript types k = Ok t).
    { unfold Types.check_keyword.
      destruct (Types.subscript types k) as [t|]; [by exists t|done]. }
    destruct v as [s|l|d]; [by apply Hleaf|by apply Hleaf|].
    destruct Hv as (types_k & -> & _). by exists types_k.
Qed.

Lemma rec_typenade_returns_on_declared_keys_witness :
  exists t, Types.subscript (JDict [("title", JScalar (SStr "str"))]) "title" = Ok t.
Proof.
  apply (rec_typenade_returns_on_declared_keys
           [("title", JScalar (SStr "x"))]
           (JDict [("title", JScalar (SStr "str"))]) false []
           (JDict [("title", JScalar (SStr "x"))]) [] "title").
  - reflexivity.
  - cbn. left.
Defined.

(** X12.  [typenade] returns exactly on the trees all of whose keywords
    conform to [types], and then returns the tree with its lists turned
    into lists of strings; on a tree it does not return for, it raises. *)
Theorem typenade_returns_iff_conforms (incoming types : jval) :
  well_keyed incoming = true ->
  (conforms incoming types = true ->
   typenade incoming types = Some (Ok (stringify incoming)))
  /\ (conforms incoming types = false ->
      exists e, typenade incoming types = Some (Raise e)).
Proof.
  intros Hk. unfold typenade. split.
  - intros Hc. by rewrite (rec_typenade_conforming incoming types true []).
  - intros Hc.
    pose proof (rec_typenade_total incoming types []) as Hsome.
    destruct (Types.rec_typenade incoming types true []) as [[[out errs]|e]|]
      eqn:E.
    + destruct errs as [|err errs]; [|by eexists].
      apply rec_typenade_no_errors_conforms in E. congruence.
    + by exists e.
    + done.
Qed.

Lemma typenade_returns_iff_conforms_witness :
  typenade (JDict [("ns", JList [JScalar (SInt 1); JScalar (SInt 2)])])
           (JDict [("ns", JScalar (SStr "List[int]"))])
  = Some (Ok (JDict [("ns", JList [JScalar (SStr "1"); JScalar (SStr "2")])])).
Proof.
  refine (proj1 (typenade_returns_iff_conforms
    (JDict [("ns", JList [JScalar (SInt 1); JScalar (SInt 2)])])
    (JDict [("ns", JScalar (SStr "List[int]"))]) _) _); reflexivity.
Defined.

(** ** validate_node: the template's own errors and the failures *)

Lemma field_of_each_elem {X : Type} (key : string) (field : X -> option string)
  (xs : list X) (ns : list string) (n : string) :
  field_of_each key field xs = Ok ns ->
  n ∈ ns <-> exists x, x ∈ xs /\ field x = Some n.
Proof.
  intros H. apply field_of_each_omap in H as ->. apply list_elem_of_omap.
Qed.

Lemma first_named_total {X : Type} (key : string) (field : X -> option string)
  (xs : list X) (ns : list string) (n : string) :
  field_of_each key field xs = Ok ns ->
  (n ∈ ns -> exists x, first_named key field n xs = Ok x)
  /\ (n ∉ ns -> first_named key field n xs = Raise IndexError).
Proof.
  revert ns. induction xs as [|x xs IH]; cbn; intros ns.
  - intros [= <-]. split; [by intros ?%elem_of_nil|done].
  - destruct (field x) as [m|]; [|done].
    destruct (field_of_each key field xs) as [ns'|]; cbn; [|done].
    intros [= <-]. destruct (IH ns' eq_refl) as [Hin Hout].
    destruct (decide (n ∈ ns')) as [H|H].
    + destruct (Hin H) as [y ->]. split; [|by intros []; right].
      intros _. destruct (String.eqb m n); eauto.
    + rewrite (Hout H). split.
      * intros [->|H']%elem_of_cons; [|done]. rewrite String.eqb_refl. eauto.
      * intros [Hne _]%not_elem_of_cons.
        destruct (String.eqb m n) eqn:E; [|done].
        apply String.eqb_eq in E. by subst.
Qed.

(** Once the check for required keywords has passed, the loop that fills
    the defaults finds a default for every keyword it is given. *)
Lemma fill_defaults_total (t : template) (a : loc) (kws : list keyword_spec)
  (tks : list string) (missing : list string) :
  t_keywords t = Some kws ->
  field_of_each "keyword" kw_keyword kws = Ok tks ->
  (forall k, k ∈ missing -> k ∈ tks /\ k ∉ required_keywords kws) ->
  forall h, exists h1, fill_defaults t h a missing = (h1, Ok tt).
Proof.
  intros Hk Htk. induction missing as [|k missing IH]; intros Hm h;
    cbn [fill_defaults]; [by exists h|].
  unfold keywords_entry. rewrite Hk. cbn [bind].
  destruct (Hm k) as [Hin Hreq]; [left|].
  destruct (proj1 (first_named_total _ _ _ _ k Htk) Hin) as [kw Ekw].
  rewrite Ekw. apply first_named_elem in Ekw as [Hkw Hname].
  destruct (kw_default kw) as [dflt|] eqn:Ed.
  - apply IH. intros k' Hk'. apply Hm. by right.
  - destruct Hreq. unfold required_keywords. apply list_elem_of_omap.
    exists kw. split; [|done]. apply list_elem_of_filter.
    split; [|done]. unfold has_no_default. by rewrite Ed.
Qed.

Lemma validate_node_no_doc (h : heap) (a : loc) (t : template)
  (kws : list keyword_spec) (tks tss : list string) :
  t_keywords t = Some kws ->
  field_of_each "keyword" kw_keyword kws = Ok tks ->
  section_names t = Ok tss ->
  filter has_no_doc kws <> [] ->
  validate_node h (PDict a) t
  = (h, Raise (no_documentation (omap kw_keyword (filter has_no_doc kws)))).
Proof.
  intros Hk Htk Hts Hdoc. rewrite validate_node_unfold. unfold validate_body.
  unfold section_names in Hts. rewrite Hts, Hk, Htk.
  unfold keywords_entry. rewrite Hk.
  pose proof (field_of_each_filter _ _ has_no_doc _ _ Htk) as E. rewrite E.
  apply length_field_of_each in E.
  destruct (omap kw_keyword (filter has_no_doc kws)) as [|n ns]; [|done].
  destruct (filter has_no_doc kws); [done|discriminate E].
Qed.

(** X13.  A template node one of whose keywords has no documentation, or
    a blank one, is rejected before the input is looked at: whatever the
    input dictionary holds, [validate_node] raises a [TemplateError] that
    names exactly the undocumented keywords, and writes nothing. *)
Theorem validate_node_undocumented_keyword (h : heap) (a : loc) (t : template)
  (kws : list keyword_spec) (tks tss : list string) :
  t_keywords t = Some kws ->
  field_of_each "keyword" kw_keyword kws = Ok tks ->
  section_names t = Ok tss ->
  filter has_no_doc kws <> [] ->
  exists m,
    validate_node h (PDict a) t = (h, Raise (TemplateError m))
    /\ forall x, names m x
                 <-> exists kw, kw ∈ kws /\ kw_keyword kw = Some x
                                /\ has_no_doc kw = true.
Proof.
  intros Hk Htk Hts Hdoc. eexists. split; [by eapply validate_node_no_doc|].
  intros x. unfold names. cbn [msg_args arg_names].
  rewrite Exists_cons, Exists_nil. cbn [arg_names].
  rewrite list_elem_of_omap. split.
  - intros [(kw & [Hd Hin]%list_elem_of_filter & Hn)|[]]. exists kw.
    split; [done|]. split; [done|]. by destruct (has_no_doc kw).
  - intros (kw & Hin & Hn & Hd). left. exists kw. split; [|done].
    apply list_elem_of_filter. split; [by rewrite Hd|done].
Qed.

Lemma validate_node_undocumented_keyword_witness :
  exists m,
    validate_node bogus_input (PDict []) blank_template
    = (bogus_input, Raise (TemplateError m))
    /\ names m "a" /\ names m "b" /\ ~ names m "c".
Proof.
  destruct (validate_node_undocumented_keyword bogus_input [] blank_template
              blank_keywords ["a"; "b"; "c"] [])
    as (m & E & Hnames); [reflexivity|reflexivity|reflexivity| |].
  - vm_compute. discriminate.
  - exists m. split; [exact E|]. rewrite !Hnames. split; [|split].
    + eexists. split; [left|]. split; reflexivity.
    + eexists. split; [right; left|]. split; reflexivity.
    + intros (kw & Hin & Hname & Hdoc). unfold blank_keywords in Hin.
      rewrite !elem_of_cons, elem_of_nil in Hin.
      destruct Hin as [->|[->|[->|[]]]]; discriminate.
Defined.

Lemma length_section_names_nil (t : template) :
  section_names t = Ok [] -> recurse_of t = [].
Proof.
  unfold section_names, recurse_of. destruct (t_sections t) as [[|x l]|]; try done.
  cbn. destruct (t_section x); [|done].
  by destruct (field_of_each "section" t_section l).
Qed.

(** X14.  On a template node without sections a failed [validate_node]
    has written nothing: every check comes before the first default is
    stored, and storing the defaults cannot fail once the checks have
    passed. *)
Theorem validate_node_failure_without_sections (h : heap) (v : pyval)
  (t : template) (h' : heap) (e : exn) :
  section_names t = Ok [] ->
  validate_node h v t = (h', Raise e) ->
  h' = h.
Proof.
  intros Hts. destruct v as [sc|items|a];
    try (rewrite validate_node_unfold; by intros [= <- _]).
  destruct (t_keywords t) as [kws|] eqn:Hk.
  2:{ rewrite validate_node_unfold. unfold validate_body.
      unfold section_names in Hts. rewrite Hts, Hk. unfold keywords_entry.
      rewrite Hk. by intros [= <- _]. }
  destruct (field_of_each "keyword" kw_keyword kws) as [tks|] eqn:Htk.
  2:{ rewrite validate_node_unfold. unfold validate_body.
      unfold section_names in Hts. rewrite Hts, Hk, Htk. by intros [= <- _]. }
  destruct (decide (filter has_no_doc kws = [])) as [Hdoc|Hdoc].
  2:{ rewrite (validate_node_no_doc h a t kws tks []) by done.
      by intros [= <- _]. }
  rewrite (validate_node_checks h a t kws tks []) by done.
  case_bool_decide as E1; [by intros [= <- _]|].
  case_bool_decide as E2; [by intros [= <- _]|].
  case_bool_decide as E3; [by intros [= <- _]|].
  destruct (verify_types t (deref h a) (keywords_of (deref h a))) as [[]|];
    [|by intros [= <- _]].
  destruct (fill_defaults_total t a kws tks
              (elements (list_to_set tks ∖ list_to_set (keywords_of (deref h a))
                         : gset string)) Hk Htk) with (h := h) as [h1 ->].
  - intros k. rewrite elem_of_elements, elem_of_difference, !elem_of_list_to_set.
    intros [Hin Hout]. split; [done|]. intros Hreq.
    rewrite difference_empty_iff in E3. auto.
  - cbn [descend]. discriminate.
Qed.

Lemma validate_node_failure_without_sections_witness :
  exists h',
    validate_node five_input (PDict []) number_template
    = (h', Raise (incorrect_type "n" "int"))
    /\ h' = five_input.
Proof.
  exists five_input. split; [reflexivity|].
  apply (validate_node_failure_without_sections five_input (PDict [])
           number_template five_input (incorrect_type "n" "int"));
    reflexivity.
Defined.

(** X15.  The defaults are not rolled back.  When the checks of a node
    itself pass, every keyword of its template is a key of the input
    dictionary after the call, whether the call returns or fails in one of
    the sections. *)
Theorem validate_node_defaults_survive_failure (h : heap) (a : loc)
  (t : template) (kws : list keyword_spec) (tks tss : list string)
  (h' : heap) (out : result pyval) :
  t_keywords t = Some kws ->
  field_of_each "keyword" kw_keyword kws = Ok tks ->
  section_names t = Ok tss ->
  filter has_no_doc kws = [] ->
  list_to_set (keywords_of (deref h a)) ∖ list_to_set tks =@{gset string} ∅ ->
  list_to_set (sections_of (deref h a)) ∖ list_to_set tss =@{gset string} ∅ ->
  list_to_set (required_keywords kws)
    ∖ list_to_set (keywords_of (deref h a)) =@{gset string} ∅ ->
  verify_types t (deref h a) (keywords_of (deref h a)) = Ok tt ->
  validate_node h (PDict a) t = (h', out) ->
  forall k, k ∈ tks -> k ∈ dict_keys (deref h' a).
Proof.
  intros Hk Htk Hts Hdoc E1 E2 E3 Hv.
  rewrite (validate_node_checks h a t kws tks tss) by done.
  rewrite !bool_decide_eq_false_2 by (by intros ?). rewrite Hv.
  destruct (fill_defaults_total t a kws tks
              (elements (list_to_set tks ∖ list_to_set (keywords_of (deref h a))
                         : gset string)) Hk Htk) with (h := h) as [h1 Hfill].
  { intros k. rewrite elem_of_elements, elem_of_difference, !elem_of_list_to_set.
    intros [Hin Hout]. split; [done|]. intros Hreq.
    rewrite difference_empty_iff in E3. auto. }
  rewrite Hfill. apply fill_defaults_keeps_keys in Hfill as [Hkeep Hall].
  destruct (descend (recurse_of t) h1 a tss) as [h2 r] eqn:Hdesc.
  apply (descend_keeps_keys _ _ _ _ _ _ (recurse_of_keeps_keys t)) in Hdesc
    as [Hkeep' _].
  intros Hout k Hin.
  assert (h' = h2) as -> by (destruct r; by injection Hout).
  apply Hkeep'. destruct (decide (k ∈ keywords_of (deref h a))) as [Hold|Hnew].
  - by apply Hkeep, keywords_of_keys.
  - apply Hall; [done|].
    rewrite elem_of_elements, elem_of_difference, !elem_of_list_to_set. done.
Qed.

Lemma validate_node_defaults_survive_failure_witness :
  "n" ∈ dict_keys
          (deref (fst (validate_node scf_bogus_input (PDict []) scf_template)) [])
  /\ exists e,
       snd (validate_node scf_bogus_input (PDict []) scf_template) = Raise e.
Proof.
  split.
  - apply (validate_node_defaults_survive_failure scf_bogus_input []
             scf_template [number_keyword] ["n"] ["scf"]
             (fst (validate_node scf_bogus_input (PDict []) scf_template))
             (snd (validate_node scf_bogus_input (PDict []) scf_template)));
      try reflexivity.
    left.
  - eexists. vm_compute. reflexivity.
Defined.

(** ** validate_node: what a successful call leaves *)

(** Storing the defaults keeps the store a tree, when the defaults match
    their types. *)
Lemma fill_defaults_well_formed (t : template) (h h1 : heap) (a : loc)
  (kws : list keyword_spec) (tks : list string) :
  well_formed h ->
  defaults_match t = true ->
  t_keywords t = Some kws ->
  fill_defaults t h a
    (elements (list_to_set tks ∖ list_to_set (keywords_of (deref h a))
               : gset string)) = (h1, Ok tt) ->
  well_formed h1
  /\ (forall k, k ∈ tks -> k ∉ keywords_of (deref h a) ->
        exists kw dflt,
          first_named "keyword" kw_keyword k kws = Ok kw
          /\ kw_default kw = Some dflt
          /\ dict_get (deref h1 a) k = Some dflt
          /\ is_dict dflt = false)
  /\ (forall k, ~ (k ∈ tks /\ k ∉ keywords_of (deref h a)) ->
        dict_get (deref h1 a) k = dict_get (deref h a) k)
  /\ (forall q, q <> a -> deref h1 q = deref h q).
Proof.
  intros [Hnd Htree] Hdm Hk Hfill.
  apply fill_defaults_ok in Hfill as (Hother & Hkeep & Hset & Hnd1).
  specialize (Hnd1 (Hnd a)).
  assert (Hmissing : forall k,
             k ∈ elements (list_to_set tks ∖ list_to_set (keywords_of (deref h a))
                           : gset string)
             <-> k ∈ tks /\ k ∉ keywords_of (deref h a)).
  { intros k. by rewrite elem_of_elements, elem_of_difference,
      !elem_of_list_to_set. }
  assert (F3 : forall k, k ∈ tks -> k ∉ keywords_of (deref h a) ->
                 exists kw dflt,
                   first_named "keyword" kw_keyword k kws = Ok kw
                   /\ kw_default kw = Some dflt
                   /\ dict_get (deref h1 a) k = Some dflt
                   /\ is_dict dflt = false).
  { intros k Hk1 Hk2.
    destruct (Hset k) as (kws' & kw & dflt & Hk' & Hkw & Hd & Hget);
      [by apply Hmissing|].
    rewrite Hk in Hk'. injection Hk' as <-.
    pose proof (first_named_elem _ _ _ _ _ Hkw) as [Hin _].
    destruct (default_matches_inv kw dflt) as (ty & Hty & Hm);
      [by eapply defaults_match_keywords|done|].
    exists kw, dflt. repeat split; try done. by eapply type_matches_is_dict. }
  assert (F2 : forall k, ~ (k ∈ tks /\ k ∉ keywords_of (deref h a)) ->
                 dict_get (deref h1 a) k = dict_get (deref h a) k).
  { intros k Hn. apply Hkeep. by rewrite Hmissing. }
  split; [|done]. split.
  - intros p. destruct (decide (p = a)) as [->|Hne]; [done|].
    rewrite Hother by done. apply Hnd.
  - intros p k q Hget. destruct (decide (p = a)) as [->|Hne].
    + destruct (decide (k ∈ tks /\ k ∉ keywords_of (deref h a))) as [[Hk1 Hk2]|Hn].
      * destruct (F3 k Hk1 Hk2) as (kw & dflt & _ & _ & Hg & Hd).
        rewrite Hg in Hget. by injection Hget as ->.
      * rewrite F2 in Hget by done. by eapply Htree.
    + rewrite Hother in Hget by done. by eapply Htree.
Qed.

(** A successful call, taken apart: the defaults are stored in the
    dictionary itself, and the calls on the sections leave it alone. *)
Lemma validate_node_root (t : template) (h h' : heap) (a : loc) (r : pyval) :
  well_formed h ->
  defaults_match t = true ->
  validate_node h (PDict a) t = (h', Ok r) ->
  exists kws tks tss h1,
    t_keywords t = Some kws
    /\ field_of_each "keyword" kw_keyword kws = Ok tks
    /\ section_names t = Ok tss
    /\ fill_defaults t h a
         (elements (list_to_set tks ∖ list_to_set (keywords_of (deref h a))
                    : gset string)) = (h1, Ok tt)
    /\ deref h' a = deref h1 a
    /\ settled h' a t
    /\ well_formed h'
    /\ (forall q, ~ a `prefix_of` q -> deref h' q = deref h q).
Proof.
  intros Hwf Hdm Hcall.
  destruct (validate_settles t Hdm _ _ _ _ Hwf Hcall) as (Hs & Hwf' & Hframe).
  apply validate_node_ok_inv in Hcall
    as (a' & kws & tks & tss & h1 & [= <-] & -> & Hk & Htk & Hts & Hdoc & E1 & E2
        & E3 & Hv & Hfill & Hdesc).
  assert (Ha : deref h' a = deref h1 a).
  { destruct (fill_defaults_well_formed t h h1 a kws tks Hwf Hdm Hk Hfill)
      as (Hwf1 & _).
    destruct (descend_settles t a) with (todo := tss) (hc := h1) (h' := h')
      as (_ & Hframe1 & _); try done.
    - intros l Hl. pose proof (defaults_match_sections t l Hdm Hl) as Hall.
      split; [|done]. apply Forall_forall. intros x _. apply validate_settles.
    - apply Hframe1. intros s _. apply prefix_snoc_not_self. }
  by exists kws, tks, tss, h1.
Qed.

(** X16.  On an input that is a tree, with a template whose defaults match
    their types, a successful [validate_node] keeps every value the
    dictionary held, stores under each declared keyword the dictionary did
    not hold the default of the first template entry of that name, and
    writes to no dictionary outside the node. *)
Theorem validate_node_keeps_user_values (h : heap) (a : loc) (t : template)
  (h' : heap) (r : pyval) :
  well_formed h ->
  defaults_match t = true ->
  validate_node h (PDict a) t = (h', Ok r) ->
  (forall k v, dict_get (deref h a) k = Some v ->
               dict_get (deref h' a) k = Some v)
  /\ (forall k, k ∉ dict_keys (deref h a) -> declares_keyword t k ->
        exists kws kw dflt,
          t_keywords t = Some kws
          /\ first_named "keyword" kw_keyword k kws = Ok kw
          /\ kw_default kw = Some dflt
          /\ dict_get (deref h' a) k = Some dflt)
  /\ (forall q, ~ a `prefix_of` q -> deref h' q = deref h q).
Proof.
  intros Hwf Hdm Hcall.
  destruct (validate_node_root t h h' a r Hwf Hdm Hcall)
    as (kws & tks & tss & h1 & Hk & Htk & Hts & Hfill & Ha & Hs & Hwf' & Hframe).
  destruct (fill_defaults_well_formed t h h1 a kws tks Hwf Hdm Hk Hfill)
    as (_ & Hnew & Hold & _).
  pose proof (validate_node_ok_inv _ _ _ _ _ Hcall)
    as (a' & kws' & tks' & tss' & _ & [= <-] & _ & Hk' & Htk' & Hts' & _ & _ & E2
        & _).
  rewrite Hk in Hk'. injection Hk' as <-.
  rewrite Htk in Htk'. injection Htk' as <-.
  rewrite Hts in Hts'. injection Hts' as <-.
  split; [|split; [|done]].
  - intros k v Hget. rewrite Ha.
    destruct (decide (k ∈ tks /\ k ∉ keywords_of (deref h a))) as [[Hk1 Hk2]|Hn];
      [|by rewrite Hold].
    destruct (Hnew k Hk1 Hk2) as (kw & dflt & _ & _ & Hg & Hd).
    assert (Hsec : k ∈ sections_of (deref h a)).
    { destruct Hwf as [Hnd _]. apply sections_of_iff; [done|]. exists v.
      split; [done|]. destruct (is_dict v) eqn:E; [done|]. destruct Hk2.
      apply keywords_of_iff; [done|]. by exists v. }
    rewrite difference_empty_iff in E2. apply E2 in Hsec.
    inversion Hs as [a0 t0 kws0 tks0 tss0 _ _ Hts0 _ _ _ _ _ _ Hsections]; subst.
    rewrite Hts in Hts0. injection Hts0 as <-.
    destruct (Hsections k Hsec) as (l & x & _ & _ & Hg' & _).
    rewrite Ha, Hg in Hg'. injection Hg' as ->. discriminate Hd.
  - intros k Hnotin (kws0 & kw0 & Hk0 & Hin & Hname).
    rewrite Hk in Hk0. injection Hk0 as <-.
    assert (Hk1 : k ∈ tks)
      by (apply (field_of_each_elem _ _ _ _ _ Htk); by exists kw0).
    assert (Hk2 : k ∉ keywords_of (deref h a))
      by (intros Hin'; by apply Hnotin, keywords_of_keys).
    destruct (Hnew k Hk1 Hk2) as (kw & dflt & Hkw & Hd & Hg & _).
    exists kws, kw, dflt. by rewrite Ha.
Qed.

Lemma validate_node_keeps_user_values_witness :
  dict_get (deref scf_merged []) "n" = Some (PScalar (SInt 0))
  /\ dict_get (deref scf_merged []) "scf" = Some (PDict ["scf"]).
Proof.
  destruct (validate_node_keeps_user_values scf_input [] scf_template
              scf_merged (PDict []) scf_input_well_formed eq_refl)
    as (Hkeep & Hfill & _); [vm_compute; reflexivity|].
  split.
  - destruct (Hfill "n") as (kws & kw & dflt & [= <-] & [= <-] & [= <-] & Hg).
    + replace (dict_keys (deref scf_input [])) with ["scf"] by reflexivity.
      rewrite elem_of_cons, elem_of_nil. intros [[=]|[]].
    + exists [number_keyword], number_keyword. split; [reflexivity|].
      split; [left|reflexivity].
    + exact Hg.
  - apply Hkeep. reflexivity.
Defined.

(** X17.  On an input that is a tree, with a template whose defaults match
    their types, after a successful [validate_node] the keywords of the
    dictionary are exactly the keywords the template node declares, its
    sections are exactly the declared sections, and the value of every
    keyword matches the type declared for it. *)
Theorem validate_node_merged_conforms (h : heap) (a : loc) (t : template)
  (h' : heap) (r : pyval) :
  well_formed h ->
  defaults_match t = true ->
  validate_node h (PDict a) t = (h', Ok r) ->
  (forall k, k ∈ keywords_of (deref h' a) <-> declares_keyword t k)
  /\ (forall s, s ∈ sections_of (deref h' a) <-> declares_section t s)
  /\ (forall k, k ∈ keywords_of (deref h' a) -> keyword_checks t (deref h' a) k).
Proof.
  intros Hwf Hdm Hcall.
  destruct (validate_settles t Hdm _ _ _ _ Hwf Hcall) as (Hs & [Hnd' _] & _).
  inversion Hs as [a0 t0 kws tks tss Hk Htk Hts _ E1 E2 _ Hv E4 Hsections]; subst.
  rewrite difference_empty_iff in E1, E2, E4.
  split; [|split].
  - intros k. split.
    + intros Hin. apply E1 in Hin.
      apply (field_of_each_elem _ _ _ _ _ Htk) in Hin as (kw & Hin & Hname).
      by exists kws, kw.
    + intros (kws0 & kw & Hk0 & Hin & Hname).
      rewrite Hk in Hk0. injection Hk0 as <-. apply E4.
      apply (field_of_each_elem _ _ _ _ _ Htk). by exists kw.
  - intros s. unfold section_names in Hts. split.
    + intros Hin. apply E2 in Hin.
      destruct (t_sections t) as [l|] eqn:El.
      * apply (field_of_each_elem _ _ _ _ _ Hts) in Hin as (x & Hin & Hname).
        by exists l, x.
      * injection Hts as <-. by apply elem_of_nil in Hin.
    + intros (l & x & El & Hin & Hname). rewrite El in Hts.
      assert (Hs' : s ∈ tss)
        by (apply (field_of_each_elem _ _ _ _ _ Hts); by exists x).
      destruct (Hsections s Hs') as (_ & _ & _ & _ & Hg & _).
      apply sections_of_iff; [done|]. by eexists.
  - apply verify_types_ok_iff in Hv. rewrite Forall_forall in Hv. exact Hv.
Qed.

Lemma validate_node_merged_conforms_witness :
  "n" ∈ keywords_of (deref scf_merged [])
  /\ "scf" ∈ sections_of (deref scf_merged []).
Proof.
  destruct (validate_node_merged_conforms scf_input [] scf_template
              scf_merged (PDict []) scf_input_well_formed eq_refl)
    as (Hkw & Hsec & _); [vm_compute; reflexivity|].
  split.
  - apply Hkw. exists [number_keyword], number_keyword.
    split; [reflexivity|]. split; [left|reflexivity].
  - apply Hsec. exists [Template (Some "scf") (Some [number_keyword]) None],
      (Template (Some "scf") (Some [number_keyword]) None).
    split; [reflexivity|]. split; [left|reflexivity].
Defined.

(** ** check_predicates_node: the store, and the tree validate_node leaves *)

Section PredicateStore.
Variable py_eval : heap -> locals -> string -> heap * eval_outcome.

Lemma check_each_pure (frame : string -> option pyval -> locals)
  (keyword : string) (predicates : list string) :
  eval_writes_nothing py_eval ->
  forall h r, fst (check_each py_eval frame keyword h r predicates) = h.
Proof.
  intros Hpure. induction predicates as [|p rest IH]; intros h r; [done|].
  cbn [check_each]. pose proof (Hpure h (frame p r) p) as E.
  destruct (py_eval h (frame p r) p) as [h' [r'|e]]; cbn in E; subst h'.
  - destruct (negb (truthy h r')); [done|apply IH].
  - by destruct e.
Qed.

Lemma check_keywords_pure (input_dict : pyval) (a : loc) (t : template)
  (iss iks tss todo : list string) :
  eval_writes_nothing py_eval ->
  forall h r,
    fst (check_keywords py_eval input_dict a t iss iks tss h r todo) = h.
Proof.
  intros Hpure. induction todo as [|k rest IH]; intros h r; [done|].
  cbn [check_keywords].
  destruct (bind _ _) as [kw|]; [|done].
  destruct (dict_get (deref h a) k) as [v|]; [|done].
  destruct (kw_predicates kw) as [ps|]; [|apply IH].
  match goal with
  | |- context [check_each py_eval ?f k h r ps] =>
      pose proof (check_each_pure f k ps Hpure h r) as E;
      destruct (check_each py_eval f k h r ps) as [h' [r'|e]]
  end; cbn in E; subst h'; [apply IH|done].
Qed.

Lemma descend_predicates_pure
  (recurse : list (option string * (heap -> pyval -> heap * result unit)))
  (a : loc) (todo : list string) :
  Forall (fun nf => forall h v, fst (snd nf h v) = h) recurse ->
  forall h, fst (descend_predicates recurse h a todo) = h.
Proof.
  intros Hrec. induction todo as [|s rest IH]; intros h; [done|].
  cbn [descend_predicates].
  destruct (dict_get (deref h a) s) as [input|]; [|done].
  destruct (first_named "section" fst s recurse) as [nf|] eqn:Ef; [|done].
  apply first_named_elem in Ef as [Hin _]. rewrite Forall_forall in Hrec.
  pose proof (Hrec nf Hin h input) as E.
  destruct (snd nf h input) as [h' [[]|e]]; cbn in E; subst h'; [apply IH|done].
Qed.

(** X18.  [check_predicates_node] itself writes to no dictionary: when
    [eval] leaves the store as it is, so does the call, whatever it returns
    or raises. *)
Theorem check_predicates_node_writes_nothing (h : heap)
  (input_dict input_dict_node : pyval) (t : template) :
  eval_writes_nothing py_eval ->
  fst (check_predicates_node py_eval h input_dict input_dict_node t) = h.
Proof.
  intros Hpure. revert h input_dict input_dict_node.
  induction t as [s k|s k l IH] using template_induction; intros h input_dict v;
    rewrite check_predicates_node_unfold; unfold check_predicates_body;
    destruct v as [sc|items|a]; try done.
  - cbn [t_sections].
    match goal with
    | |- context [check_keywords py_eval ?i a ?t ?x ?y ?z h None ?todo] =>
        pose proof (check_keywords_pure i a t x y z todo Hpure h None) as E;
        destruct (check_keywords py_eval i a t x y z h None todo) as [h' [r'|e]]
    end; cbn in E; subst h'; done.
  - cbn [t_sections].
    destruct (field_of_each "section" t_section l) as [tss|]; [|done].
    match goal with
    | |- context [check_keywords py_eval ?i a ?t ?x ?y ?z h None ?todo] =>
        pose proof (check_keywords_pure i a t x y z todo Hpure h None) as E;
        destruct (check_keywords py_eval i a t x y z h None todo) as [h' [r'|e]]
    end; cbn in E; subst h'; [|done].
    apply descend_predicates_pure. unfold recurse_predicates_of.
    cbn [t_sections]. apply Forall_forall. intros nf [x [-> Hx]]%elem_of_map.
    cbn [snd]. intros h0 v0. rewrite Forall_forall in IH. by apply IH.
Qed.

Lemma check_each_holds (frame : string -> option pyval -> locals)
  (keyword : string) (predicates : list string) :
  eval_always_holds py_eval ->
  forall h r,
    exists r', check_each py_eval frame keyword h r predicates = (h, Ok r').
Proof.
  intros Hev. induction predicates as [|p rest IH]; intros h r; [by eexists|].
  cbn [check_each]. destruct (Hev h (frame p r) p) as (r' & -> & ->).
  cbn [negb]. apply IH.
Qed.

Lemma check_keywords_holds (input_dict : pyval) (a : loc) (t : template)
  (iss iks tss todo : list string) (h : heap) :
  eval_always_holds py_eval ->
  Forall (keyword_checks t (deref h a)) todo ->
  forall r,
    exists r',
      check_keywords py_eval input_dict a t iss iks tss h r todo = (h, Ok r').
Proof.
  intros Hev. induction todo as [|k rest IH]; intros Hall r; [by eexists|].
  apply Forall_cons in Hall as [(kws & kw & ty & v & Hk & Hkw & _ & Hget & _) Hall].
  cbn [check_keywords]. unfold keywords_entry. rewrite Hk. cbn [bind].
  rewrite Hkw, Hget. destruct (kw_predicates kw) as [ps|]; [|by apply IH].
  match goal with
  | |- context [check_each py_eval ?f k h r ps] =>
      destruct (check_each_holds f k ps Hev h r) as [r' ->]
  end.
  by apply IH.
Qed.

Lemma descend_predicates_holds
  (recurse : list (option string * (heap -> pyval -> heap * result unit)))
  (h : heap) (a : loc) (todo : list string) :
  (forall s, s ∈ todo ->
     exists nf input,
       dict_get (deref h a) s = Some input
       /\ first_named "section" fst s recurse = Ok nf
       /\ snd nf h input = (h, Ok tt)) ->
  descend_predicates recurse h a todo = (h, Ok tt).
Proof.
  induction todo as [|s todo IH]; intros H; [reflexivity|].
  cbn [descend_predicates].
  destruct (H s) as (nf & input & Hget & Hnf & Hcall); [left|].
  rewrite Hget, Hnf, Hcall. apply IH. intros s' Hs'. apply H. by right.
Qed.

Lemma settled_predicates (t : template) :
  eval_always_holds py_eval ->
  forall h a input_dict,
    settled h a t ->
    check_predicates_node py_eval h input_dict (PDict a) t = (h, Ok tt).
Proof.
  intros Hev.
  induction t as [s k|s k l IH] using template_induction;
    intros h a input_dict Hs;
    inversion Hs as [a' t' kws tks tss Hk Htk Hts Hdoc E1 E2 E3 Hv E4 Hsec]; subst.
  all: rewrite check_predicates_node_unfold; unfold check_predicates_body.
  all: unfold section_names in Hts; rewrite Hts.
  all: apply verify_types_ok_iff in Hv.
  all: match goal with
       | |- context [check_keywords py_eval ?i ?a0 ?t ?x ?y ?z ?h0 None ?todo] =>
           destruct (check_keywords_holds i a0 t x y z todo h0 Hev Hv None)
             as [r' ->]
       end.
  - cbn in Hts. by injection Hts as <-.
  - apply descend_predicates_holds. intros s' Hs'.
    destruct (Hsec s' Hs') as (l' & x & [= <-] & Hx & Hget & Hsx).
    eexists _, _. split; [exact Hget|].
    unfold recurse_predicates_of. cbn [t_sections].
    rewrite (first_named_map "section" t_section). rewrite Hx.
    split; [reflexivity|]. cbn [snd].
    apply first_named_elem in Hx as [Hin _].
    rewrite Forall_forall in IH. by apply IH.
Qed.

(** X19.  The two passes compose.  On an input that is a tree, with a
    template whose defaults match their types, what a successful
    [validate_node] leaves goes through [check_predicates_node] without a
    failed lookup: when every predicate evaluates to a true value, the call
    returns, at every depth. *)
Theorem check_predicates_node_after_validate_node (h : heap) (a : loc)
  (t : template) (h' : heap) (r : pyval) :
  well_formed h ->
  defaults_match t = true ->
  validate_node h (PDict a) t = (h', Ok r) ->
  eval_always_holds py_eval ->
  check_predicates_node py_eval h' r r t = (h', Ok tt).
Proof.
  intros Hwf Hdm Hcall Hev.
  destruct (validate_settles t Hdm _ _ _ _ Hwf Hcall) as (Hs & _ & _).
  apply validate_node_ok_inv in Hcall as (a' & _ & _ & _ & _ & [= <-] & -> & _).
  by apply settled_predicates.
Qed.

End PredicateStore.

Lemma check_predicates_node_writes_nothing_witness :
  fst (check_predicates_node three_texts_eval minus_one_input (PDict [])
         (PDict []) positive_template) = minus_one_input.
Proof.
  apply (check_predicates_node_writes_nothing three_texts_eval).
  intros h env p. unfold three_texts_eval.
  destruct (String.eqb p "value > 0"); [by destruct (l_value env) as [[]| |]|].
  by destruct (String.eqb p "value >").
Defined.

Lemma check_predicates_node_after_validate_node_witness :
  check_predicates_node always_true_eval scf_merged (PDict []) (PDict [])
    scf_template = (scf_merged, Ok tt).
Proof.
  apply (check_predicates_node_after_validate_node always_true_eval
           scf_input [] scf_template scf_merged (PDict [])
           scf_input_well_formed eq_refl).
  - vm_compute. reflexivity.
  - intros h env p. by exists (PScalar (SBool true)).
Defined.
